(** * ai4eo-challenge-slovenia: the two training scripts, embedded

    [src/ai4eo/srresnet.py] (the super-resolution network) and
    [src/ai4eo/model.py] (the cultivated-land classifier and its
    early-stopping loop) as Rocq definitions, followed by the theorems
    that settle the specification's claims about them and by further
    properties of the code.

    Python integers are [Z], float64 values are primitive floats, strings
    are [string].  An exception is a value of [PyExc]; a computation that
    may raise returns [result A].  Calls into torch, numpy, eolearn and
    nni are fields of an interface (a type class) that the scripts are
    parametric in. *)

From Stdlib Require Import ZArith List Bool String Ascii Lia PrimFloat Floats Reals Lra.
From stdpp Require Import base list strings gmap.
Import ListNotations.

(* Decimal literals such as 0.4 stand for the nearest float64, as in
   Python. *)
#[local] Set Warnings "-inexact-float".

Local Open Scope string_scope.
Local Open Scope list_scope.
Local Open Scope Z_scope.

(** ** Python exceptions and the error monad *)

Inductive PyExc : Type :=
| AssertionError (msg : string)
| NameError (name : string)
| UnboundLocalError (name : string)
| AttributeError (msg : string)
| RuntimeError (msg : string)
| ValueError (msg : string).

Definition result (A : Type) : Type := (PyExc + A)%type.

Definition ok {A} (a : A) : result A := inr a.
Definition raise {A} (e : PyExc) : result A := inl e.

Definition rbind {A B} (m : result A) (k : A -> result B) : result B :=
  match m with
  | inl e => inl e
  | inr a => k a
  end.

Declare Scope result_scope.
Delimit Scope result_scope with result.
Notation "'do' x <- m ; k" := (rbind m (fun x => k))
  (at level 10, x name, m at level 100, k at level 200) : result_scope.

(** [assert cond, msg] *)
Definition py_assert (cond : bool) (msg : string) : result unit :=
  if cond then ok tt else raise (AssertionError msg).

(** [str.lower()] on ASCII text. *)
Definition ascii_lower (c : ascii) : ascii :=
  let n := nat_of_ascii c in
  if (Nat.leb 65 n && Nat.leb n 90)%bool then ascii_of_nat (n + 32) else c.

Fixpoint lower (s : string) : string :=
  match s with
  | EmptyString => EmptyString
  | String c r => String (ascii_lower c) (lower r)
  end.

(** [x in {...}] for a set display of strings or of integers. *)
Definition str_in (x : string) (l : list string) : bool :=
  existsb (String.eqb x) l.

Definition int_in (x : Z) (l : list Z) : bool :=
  existsb (Z.eqb x) l.

(** [range(n)] *)
Definition py_range (n : Z) : list Z :=
  map Z.of_nat (seq 0 (Z.to_nat n)).

(** ** srresnet.py *)

Module SRResNet.

Local Open Scope result_scope.

(** The command-line flags the network reads (srresnet.py:344-351). *)
Record Args : Type := {
  scaling_factor : Z;
  n_channels : Z;
  input_channels : Z;
  large_kernel_size : Z;
  small_kernel_size : Z;
  n_blocks : Z
}.

(** The torch.nn layers the script instantiates, with the constructor
    arguments it passes. *)
Inductive Layer : Type :=
| Conv2d (in_channels out_channels kernel_size stride padding : Z)
| BatchNorm2d (num_features : Z)
| PReLU
| LeakyReLU (negative_slope : float)
| Tanh
| PixelShuffle (upscale_factor : Z)
| Sigmoid.

(** A submodule is addressed by its attribute path from the root module
    (the keys of [state_dict()]): the learned parameters of a layer belong
    to the layer object, so two layers built with the same arguments are
    still two different functions. *)
Inductive Seg : Type :=
| Attr (name : string)
| Idx (i : nat).

Definition Path : Type := list Seg.

(** What the script needs of torch tensors: applying one layer (in
    training or evaluation mode) and [+]. *)
Class Torch (T : Type) : Type := {
  layer_forward : Path -> bool -> Layer -> T -> result T;
  tensor_add : T -> T -> result T
}.

(** [nn.Sequential.forward]: the children in order, child [i] at
    [self.i]. *)
Fixpoint Sequential_from {T M : Type} (fwd : Path -> bool -> M -> T -> result T)
    (self : Path) (training : bool) (i : nat) (children : list M) (x : T)
  : result T :=
  match children with
  | [] => ok x
  | m :: rest =>
      do y <- fwd (self ++ [Idx i]) training m x;
      Sequential_from fwd self training (S i) rest y
  end.

Definition Sequential_forward {T M : Type}
    (fwd : Path -> bool -> M -> T -> result T)
    (self : Path) (training : bool) (children : list M) (x : T) : result T :=
  Sequential_from fwd self training 0%nat children x.

(** *** ConvolutionalBlock (srresnet.py:72-122) *)

Record ConvolutionalBlock : Type := {
  conv_block : list Layer
}.

Definition ConvolutionalBlock_init (in_channels out_channels kernel_size : Z)
    (stride : Z) (batch_norm : bool) (activation : option string)
  : result ConvolutionalBlock :=
  let activation := option_map lower activation in
  do _ <- match activation with
          | Some a => py_assert (str_in a ["prelu"; "leakyrelu"; "tanh"]) ""
          | None => ok tt
          end;
  let layers :=
    [Conv2d in_channels out_channels kernel_size stride (kernel_size / 2)] in
  let layers :=
    if batch_norm then layers ++ [BatchNorm2d out_channels] else layers in
  let layers :=
    match activation with
    | Some a =>
        if String.eqb a "prelu" then layers ++ [PReLU]
        else if String.eqb a "leakyrelu" then layers ++ [LeakyReLU 0.2%float]
        else if String.eqb a "tanh" then layers ++ [Tanh]
        else layers
    | None => layers
    end in
  ok {| conv_block := layers |}.

Definition ConvolutionalBlock_forward {T} {ops : Torch T}
    (self : Path) (training : bool) (b : ConvolutionalBlock) (input : T)
  : result T :=
  Sequential_forward layer_forward (self ++ [Attr "conv_block"]) training
    (conv_block b) input.

(** *** SubPixelConvolutionalBlock (srresnet.py:124-152) *)

Record SubPixelConvolutionalBlock : Type := {
  conv : Layer;
  pixel_shuffle : Layer;
  prelu : Layer
}.

Definition SubPixelConvolutionalBlock_init (args : Args) (scaling_factor : Z)
  : result SubPixelConvolutionalBlock :=
  ok {| conv := Conv2d (n_channels args)
                  (n_channels args * scaling_factor ^ 2)
                  (small_kernel_size args) 1 (small_kernel_size args / 2);
        pixel_shuffle := PixelShuffle scaling_factor;
        prelu := PReLU |}.

Definition SubPixelConvolutionalBlock_forward {T} {ops : Torch T}
    (self : Path) (training : bool) (b : SubPixelConvolutionalBlock)
    (input_ : T) : result T :=
  do output <- layer_forward (self ++ [Attr "conv"]) training (conv b) input_;
  do output <- layer_forward (self ++ [Attr "pixel_shuffle"]) training
                 (pixel_shuffle b) output;
  do output <- layer_forward (self ++ [Attr "prelu"]) training (prelu b) output;
  ok output.

(** *** ResidualBlock (srresnet.py:155-185) *)

Record ResidualBlock : Type := {
  rb_conv_block1 : ConvolutionalBlock;
  rb_conv_block2 : ConvolutionalBlock
}.

Definition ResidualBlock_init (args : Args) : result ResidualBlock :=
  do b1 <- ConvolutionalBlock_init (n_channels args) (n_channels args)
             (small_kernel_size args) 1 true (Some "PReLu");
  do b2 <- ConvolutionalBlock_init (n_channels args) (n_channels args)
             (small_kernel_size args) 1 true None;
  ok {| rb_conv_block1 := b1; rb_conv_block2 := b2 |}.

Definition ResidualBlock_forward {T} {ops : Torch T}
    (self : Path) (training : bool) (b : ResidualBlock) (input_ : T)
  : result T :=
  let residual := input_ in
  do output <- ConvolutionalBlock_forward (self ++ [Attr "conv_block1"])
                 training (rb_conv_block1 b) input_;
  do output <- ConvolutionalBlock_forward (self ++ [Attr "conv_block2"])
                 training (rb_conv_block2 b) output;
  do output <- tensor_add output residual;
  ok output.

(** *** SRResNet (srresnet.py:188-252) *)

(** [[f(args) for i in range(n)]] *)
Fixpoint comprehension {A} (f : result A) (n : nat) : result (list A) :=
  match n with
  | O => ok []
  | S k =>
      do a <- f;
      do r <- comprehension f k;
      ok (a :: r)
  end.

(** [int(math.log2(x))]: [math.log2] raises on a non-positive argument;
    the integer part of the logarithm is [Z.log2] from 1 on. *)
Definition int_log2 (x : Z) : result Z :=
  if x <=? 0 then raise (ValueError "math domain error") else ok (Z.log2 x).

Record SRResNet : Type := {
  args_ : Args;
  conv_block1 : ConvolutionalBlock;
  residual_blocks : list ResidualBlock;
  conv_block2 : ConvolutionalBlock;
  subpixel_convolutional_blocks : list SubPixelConvolutionalBlock;
  conv_block3 : ConvolutionalBlock;
  sigmoid : Layer;
  (** [nn.Module.training]: true after construction, set on every
      submodule at once by [train()] and [eval()]. *)
  training : bool
}.

(** [args.scaling_factor] is an [int] already (argparse [type=int]), so
    [int(...)] leaves it as it is. *)
Definition SRResNet_init (args : Args) : result SRResNet :=
  let scaling_factor' := scaling_factor args in
  do _ <- py_assert (int_in scaling_factor' [2; 4; 8])
            "The scaling factor must be 2, 4, or 8!";
  do cb1 <- ConvolutionalBlock_init (input_channels args) (n_channels args)
              (large_kernel_size args) 1 false (Some "PReLu");
  do rbs <- comprehension (ResidualBlock_init args) (Z.to_nat (n_blocks args));
  do cb2 <- ConvolutionalBlock_init (n_channels args) (n_channels args)
              (small_kernel_size args) 1 true None;
  do n_subpixel_convolutional_blocks <- int_log2 (scaling_factor args);
  do sps <- comprehension (SubPixelConvolutionalBlock_init args 2)
              (Z.to_nat n_subpixel_convolutional_blocks);
  do cb3 <- ConvolutionalBlock_init (n_channels args) 1
              (large_kernel_size args) 1 false (Some "Tanh");
  ok {| args_ := args;
        conv_block1 := cb1;
        residual_blocks := rbs;
        conv_block2 := cb2;
        subpixel_convolutional_blocks := sps;
        conv_block3 := cb3;
        sigmoid := Sigmoid;
        training := true |}.

(** [model.eval()] *)
Definition eval_ (net : SRResNet) : SRResNet :=
  {| args_ := args_ net;
     conv_block1 := conv_block1 net;
     residual_blocks := residual_blocks net;
     conv_block2 := conv_block2 net;
     subpixel_convolutional_blocks := subpixel_convolutional_blocks net;
     conv_block3 := conv_block3 net;
     sigmoid := sigmoid net;
     training := false |}.

Definition forward {T} {ops : Torch T} (self : SRResNet) (lr_imgs : T) : result T :=
  let tr := training self in
  do output <- ConvolutionalBlock_forward [Attr "conv_block1"] tr
                 (conv_block1 self) lr_imgs;
  let residual := output in
  do output <- Sequential_forward ResidualBlock_forward
                 [Attr "residual_blocks"] tr (residual_blocks self) output;
  do output <- ConvolutionalBlock_forward [Attr "conv_block2"] tr
                 (conv_block2 self) output;
  do output <- tensor_add output residual;
  do output <- Sequential_forward SubPixelConvolutionalBlock_forward
                 [Attr "subpixel_convolutional_blocks"] tr
                 (subpixel_convolutional_blocks self) output;
  do sr_imgs <- ConvolutionalBlock_forward [Attr "conv_block3"] tr
                  (conv_block3 self) output;
  do sr_imgs <- layer_forward [Attr "sigmoid"] tr (sigmoid self) sr_imgs;
  ok sr_imgs.

(** *** Tensor shapes

    The first reading of [Torch]: a tensor is its [(N, C, w, h)] size, and
    a layer is torch's shape rule for it, with the checks that make the
    real call raise. *)

Record Size : Type := {
  dim_n : Z;
  dim_c : Z;
  dim_w : Z;
  dim_h : Z
}.

(** Output length of a convolution along one axis (dilation 1). *)
Definition conv2d_out (x kernel_size stride padding : Z) : Z :=
  (x + 2 * padding - (kernel_size - 1) - 1) / stride + 1.

Definition size_layer_forward (self : Path) (training : bool) (l : Layer)
    (x : Size) : result Size :=
  match l with
  | Conv2d cin cout k s p =>
      if negb (dim_c x =? cin) then
        raise (RuntimeError "expected input to have in_channels channels")
      else if (dim_w x + 2 * p <? k) || (dim_h x + 2 * p <? k) then
        raise (RuntimeError "Kernel size can't be greater than actual input size")
      else
        ok {| dim_n := dim_n x;
              dim_c := cout;
              dim_w := conv2d_out (dim_w x) k s p;
              dim_h := conv2d_out (dim_h x) k s p |}
  | BatchNorm2d nf =>
      if negb (dim_c x =? nf) then
        raise (RuntimeError "running_mean should contain num_features elements")
      else if training && (dim_n x * dim_w x * dim_h x =? 1) then
        raise (ValueError "Expected more than 1 value per channel when training")
      else ok x
  | PixelShuffle r =>
      if negb (dim_c x mod (r * r) =? 0) then
        raise (RuntimeError "channels must be divisible by the square of upscale_factor")
      else
        ok {| dim_n := dim_n x;
              dim_c := dim_c x / (r * r);
              dim_w := dim_w x * r;
              dim_h := dim_h x * r |}
  | PReLU | LeakyReLU _ | Tanh | Sigmoid => ok x
  end.

(** Broadcasting of one axis: equal, or one of the two is 1. *)
Definition broadcast_dim (a b : Z) : result Z :=
  if a =? b then ok a
  else if a =? 1 then ok b
  else if b =? 1 then ok a
  else raise (RuntimeError "The size of tensor a must match the size of tensor b").

Definition size_add (a b : Size) : result Size :=
  do n <- broadcast_dim (dim_n a) (dim_n b);
  do c <- broadcast_dim (dim_c a) (dim_c b);
  do w <- broadcast_dim (dim_w a) (dim_w b);
  do h <- broadcast_dim (dim_h a) (dim_h b);
  ok {| dim_n := n; dim_c := c; dim_w := w; dim_h := h |}.

#[export] Instance size_torch : Torch Size := {
  layer_forward := size_layer_forward;
  tensor_add := size_add
}.

(** *** Tensor values

    The second reading: a tensor is the list of its elements, as real
    numbers.  [nn.Tanh] and [nn.Sigmoid] act on each element; what the
    layers with learned parameters and the broadcasting sum compute is
    left arbitrary ([learned], one function per layer object and mode, and
    [sum_]). *)

Definition torch_tanh (x : R) : R := tanh x.

Definition torch_sigmoid (x : R) : R := (1 / (1 + exp (- x)))%R.

Definition values_layer_forward
    (learned : Path -> bool -> Layer -> list R -> list R)
    (self : Path) (training : bool) (l : Layer) (x : list R)
  : result (list R) :=
  match l with
  | Tanh => ok (map torch_tanh x)
  | Sigmoid => ok (map torch_sigmoid x)
  | _ => ok (learned self training l x)
  end.

Definition values_torch
    (learned : Path -> bool -> Layer -> list R -> list R)
    (sum_ : list R -> list R -> list R) : Torch (list R) := {|
  layer_forward := values_layer_forward learned;
  tensor_add := fun a b => ok (sum_ a b)
|}.

(** *** The network the constructor returns, written out *)

(** A ConvolutionalBlock with stride 1, by its layers. *)
Definition conv_layers (cin cout k : Z) (bn : bool) (act : list Layer)
  : ConvolutionalBlock :=
  {| conv_block :=
       Conv2d cin cout k 1 (k / 2)
       :: (if bn then [BatchNorm2d cout] else []) ++ act |}.

Definition residual_block (args : Args) : ResidualBlock :=
  {| rb_conv_block1 :=
       conv_layers (n_channels args) (n_channels args)
         (small_kernel_size args) true [PReLU];
     rb_conv_block2 :=
       conv_layers (n_channels args) (n_channels args)
         (small_kernel_size args) true [] |}.

Definition subpixel_block (args : Args) : SubPixelConvolutionalBlock :=
  {| conv := Conv2d (n_channels args) (n_channels args * 2 ^ 2)
               (small_kernel_size args) 1 (small_kernel_size args / 2);
     pixel_shuffle := PixelShuffle 2;
     prelu := PReLU |}.

Definition built (args : Args) : SRResNet :=
  {| args_ := args;
     conv_block1 :=
       conv_layers (input_channels args) (n_channels args)
         (large_kernel_size args) false [PReLU];
     residual_blocks := repeat (residual_block args) (Z.to_nat (n_blocks args));
     conv_block2 :=
       conv_layers (n_channels args) (n_channels args)
         (small_kernel_size args) true [];
     subpixel_convolutional_blocks :=
       repeat (subpixel_block args) (Z.to_nat (Z.log2 (scaling_factor args)));
     conv_block3 :=
       conv_layers (n_channels args) 1 (large_kernel_size args) false [Tanh];
     sigmoid := Sigmoid;
     training := true |}.

(** The flags of srresnet.py:344-351 with another scale factor and
    another kernel size for the first and last convolutions. *)
Definition flags (scaling_factor' large_kernel_size' : Z) : Args :=
  {| scaling_factor := scaling_factor';
     n_channels := 64;
     input_channels := 3;
     large_kernel_size := large_kernel_size';
     small_kernel_size := 3;
     n_blocks := 16 |}.

(** An input batch of the given size with [input_channels] channels. *)
Definition batch (args : Args) (n w h : Z) : Size :=
  {| dim_n := n; dim_c := input_channels args; dim_w := w; dim_h := h |}.

(** The same size with another number of channels. *)
Definition with_channels (c : Z) (x : Size) : Size :=
  {| dim_n := dim_n x; dim_c := c; dim_w := dim_w x; dim_h := dim_h x |}.

(** What the layers ask of a batch: no empty axis, and, in training
    mode, more than one value per channel (batch normalisation refuses
    a single one). *)
Definition accepted (tr : bool) (x : Size) : Prop :=
  1 <= dim_w x /\ 1 <= dim_h x /\
  (tr = true -> dim_n x * dim_w x * dim_h x <> 1).

(** A size with width and height doubled, once and [n] times. *)
Definition doubled (x : Size) : Size :=
  {| dim_n := dim_n x; dim_c := dim_c x;
     dim_w := dim_w x * 2; dim_h := dim_h x * 2 |}.

Fixpoint doubled_times (n : nat) (x : Size) : Size :=
  match n with
  | O => x
  | S k => doubled_times k (doubled x)
  end.

(** The network in the given mode: as constructed, or after [eval()]. *)
Definition in_mode (tr : bool) (net : SRResNet) : SRResNet :=
  if tr then net else eval_ net.

(** What a convolution of kernel size [k], stride 1 and padding
    [k // 2] makes of a size: [cout] channels, and one more row and
    column when [k] is even. *)
Definition conv_grown (k cout : Z) (x : Size) : Size :=
  {| dim_n := dim_n x; dim_c := cout;
     dim_w := if Z.even k then dim_w x + 1 else dim_w x;
     dim_h := if Z.even k then dim_h x + 1 else dim_h x |}.

(** The flags of srresnet.py:344-351 with another kernel size for the
    convolutions in between and another number of residual blocks. *)
Definition flags_small (small_kernel_size' n_blocks' : Z) : Args :=
  {| scaling_factor := 4;
     n_channels := 64;
     input_channels := 3;
     large_kernel_size := 9;
     small_kernel_size := small_kernel_size';
     n_blocks := n_blocks' |}.

End SRResNet.

(** ** model.py *)

Module Model.

(** The command-line flags (model.py:323-340). *)
Record Args : Type := {
  processed_data_dir : string;
  target_dir : string;
  n_processes : Z;
  n_valid_patches : Z;
  s2_length : Z;
  n_time_frames : Z;
  overwrite : bool;
  s2_random : bool;
  n_s2 : Z;
  fixed_random_seed : bool;
  inference : bool;
  nni : bool;
  learning_rate : float;
  batch_size : Z;
  max_epochs : Z;
  patience : Z
}.

(** The libraries the script drives.  Random draws go through the two
    global generators (numpy's and torch's), whose states are passed
    explicitly.  One epoch's sweep over the training batches
    (model.py:276-286) and over the validation batches (model.py:288-295),
    both through [predict], are [train_sweep] and [valid_sweep]. *)
Class Libraries : Type := {
  Params : Type;
  Optim : Type;
  Preds : Type;
  EODataset : Type;
  NpRng : Type;
  TorchRng : Type;
  np_random_seed : Z -> NpRng;
  torch_manual_seed : Z -> TorchRng;
  cuda_is_available : bool;
  os_listdir : string -> list string;
  np_random_shuffle : list string -> NpRng -> list string * NpRng;
  (** LoadTask, eotasks.SamplePatchletsTask and the stacking into arrays
      (model.py:127-176) *)
  load_patchlets : Args -> list string -> NpRng -> EODataset * NpRng;
  (** the two nn.Linear layers of EOModel, randomly initialised *)
  EOModel_parameters : Args -> TorchRng -> Params * TorchRng;
  Adam : float -> Optim;
  train_sweep :
    Args -> EODataset -> Params -> Optim -> TorchRng ->
    Params * Optim * TorchRng * float;
  valid_sweep : Args -> EODataset -> Params -> float * list Preds
}.

(** An object reference: the position of the object in the heap. *)
Definition loc : Type := nat.

(** What [main] itself sends out: its prints (the one that shows the
    elapsed wall-clock time of an epoch left out) and its calls to the
    nni service.  The prints of [EODataset] and of [predict] stay inside
    the library calls. *)
Inductive Event : Type :=
| print_not_implemented_inference
| print_device (device : string)
| print_epoch (epoch : Z)
| print_losses (train_loss valid_loss : float)
| print_early_stopping (patience : Z)
| print_saved (path : string)
| nni_report_intermediate_result (v : float)
| nni_report_final_result.

(** The names bound at module level when [main] runs (model.py:3-20 and
    the definitions of the file; [parser] and [args] when run as a
    script). *)
Definition module_globals : list string :=
  ["torch"; "nn"; "F"; "Dataset"; "DataLoader"; "argparse"; "os"; "time";
   "defaultdict"; "copy"; "np"; "matthews_corrcoef"; "LoadTask"; "eotasks";
   "SCALE"; "EODataset"; "EOModel"; "main"; "parser"; "args"].

(** [os.path.join(a, b)] for a relative [b]. *)
Definition os_path_join (a b : string) : string :=
  if String.eqb a "" then b
  else if String.eqb (substring (String.length a - 1) 1 a) "/" then (a ++ b)%string
  else (a ++ "/" ++ b)%string.

(** Python slicing [l[i:]] and [l[:i]]: a negative index counts from
    the end, and an index out of range is clipped. *)
Definition slice_index (len i : Z) : nat :=
  Z.to_nat (if i <? 0 then Z.max 0 (len + i) else Z.min i len).

Definition slice_from {A} (i : Z) (l : list A) : list A :=
  drop (slice_index (Z.of_nat (length l)) i) l.

Definition slice_to {A} (i : Z) (l : list A) : list A :=
  take (slice_index (Z.of_nat (length l)) i) l.

Section Script.

Context `{L : Libraries}.

Record World : Type := {
  heap : list Params;
  np_rng : NpRng;
  torch_rng : TorchRng;
  disk : list (string * Params);
  log : list Event
}.

Definition set_heap (hp : list Params) (w : World) : World :=
  {| heap := hp; np_rng := np_rng w; torch_rng := torch_rng w;
     disk := disk w; log := log w |}.

Definition set_np_rng (r : NpRng) (w : World) : World :=
  {| heap := heap w; np_rng := r; torch_rng := torch_rng w;
     disk := disk w; log := log w |}.

Definition set_torch_rng (r : TorchRng) (w : World) : World :=
  {| heap := heap w; np_rng := np_rng w; torch_rng := r;
     disk := disk w; log := log w |}.

Definition set_disk (d : list (string * Params)) (w : World) : World :=
  {| heap := heap w; np_rng := np_rng w; torch_rng := torch_rng w;
     disk := d; log := log w |}.

Definition set_log (o : list Event) (w : World) : World :=
  {| heap := heap w; np_rng := np_rng w; torch_rng := torch_rng w;
     disk := disk w; log := o |}.

(** A statement: it may raise, and it changes the world either way. *)
Definition M (A : Type) : Type := World -> result A * World.

Definition ret {A} (a : A) : M A := fun w => (ok a, w).

Definition throw {A} (e : PyExc) : M A := fun w => (raise e, w).

Definition bind {A B} (m : M A) (k : A -> M B) : M B :=
  fun w =>
    match m w with
    | (inl e, w') => (inl e, w')
    | (inr a, w') => k a w'
    end.

Declare Scope stmt_scope.
Delimit Scope stmt_scope with stmt.
Notation "'do' x <- m ; k" := (bind m (fun x => k))
  (at level 10, x name, m at level 100, k at level 200) : stmt_scope.
Notation "'do' ' p <- m ; k" := (bind m (fun x => match x with p => k end))
  (at level 10, p pattern, m at level 100, k at level 200) : stmt_scope.
Local Open Scope stmt_scope.

Definition emit (e : Event) : M unit :=
  fun w => (ok tt, set_log (log w ++ [e]) w).

(** Reading a global name, and a local one that may not be bound yet. *)
Definition load_global (name : string) : M unit :=
  if decide (name ∈ module_globals) then ret tt else throw (NameError name).

Definition load_local {A} (name : string) (v : option A) : M A :=
  match v with
  | Some a => ret a
  | None => throw (UnboundLocalError name)
  end.

(** Objects *)
Definition new_object (p : Params) : M loc :=
  fun w => (ok (length (heap w)), set_heap (heap w ++ [p]) w).

Definition state_dict (o : loc) : M Params :=
  fun w =>
    match heap w !! o with
    | Some p => (ok p, w)
    | None => (raise (RuntimeError "no such object"), w)
    end.

Definition copy_deepcopy (o : loc) : M loc :=
  do p <- state_dict o;
  new_object p.

Definition torch_save (sd : Params) (path : string) : M unit :=
  fun w => (ok tt, set_disk (disk w ++ [(path, sd)]) w).

(** *** EODataset.__init__ (model.py:103-178) *)

Definition EODataset_init (flag : string) (args : Args) : M (option EODataset) :=
  if String.eqb flag "test" then ret None
  else
    let f_patches := os_listdir (processed_data_dir args) in
    do _ <- (fun w => (py_assert (fixed_random_seed args) "", w));
    do f_patches <- (fun w =>
                       let '(fp, r) := np_random_shuffle f_patches (np_rng w) in
                       (ok fp, set_np_rng r w));
    let f_patches :=
      if String.eqb flag "train" then slice_from (n_valid_patches args) f_patches
      else slice_to (n_valid_patches args) f_patches in
    do ds <- (fun w =>
                let '(ds, r) := load_patchlets args f_patches (np_rng w) in
                (ok ds, set_np_rng r w));
    ret (Some ds).

(** [len(dataset)], as the DataLoader needs it: the object built for
    ['test'] has no arrays. *)
Definition dataset_arrays (d : option EODataset) : M EODataset :=
  match d with
  | Some ds => ret ds
  | None => throw (AttributeError "'EODataset' object has no attribute 'lowres'")
  end.

(** [EOModel(args)] *)
Definition EOModel_init (args : Args) : M loc :=
  do p <- (fun w =>
             let '(p, r) := EOModel_parameters args (torch_rng w) in
             (ok p, set_torch_rng r w));
  new_object p.

Definition get_device : string :=
  if cuda_is_available then "cuda:0" else "cpu".

(** *** main (model.py:212-319) *)

(** The local variables of [main] that outlive one epoch.  A name that
    is assigned only inside a branch is an [option]: [None] while it is
    unbound. *)
Record Locals : Type := {
  train_dataset : EODataset;
  valid_dataset : EODataset;
  model : loc;
  optimizer : Optim;
  best_loss : float;
  best_epoch : Z;
  patience_count : Z;
  best_model : option loc;
  best_preds : option (list Preds)
}.

Definition set_optimizer (o : Optim) (l : Locals) : Locals :=
  {| train_dataset := train_dataset l; valid_dataset := valid_dataset l;
     model := model l; optimizer := o;
     best_loss := best_loss l; best_epoch := best_epoch l;
     patience_count := patience_count l;
     best_model := best_model l; best_preds := best_preds l |}.

Definition set_patience_count (c : Z) (l : Locals) : Locals :=
  {| train_dataset := train_dataset l; valid_dataset := valid_dataset l;
     model := model l; optimizer := optimizer l;
     best_loss := best_loss l; best_epoch := best_epoch l;
     patience_count := c;
     best_model := best_model l; best_preds := best_preds l |}.

Definition set_best (bm : loc) (bp : list Preds) (bl : float) (l : Locals)
  : Locals :=
  {| train_dataset := train_dataset l; valid_dataset := valid_dataset l;
     model := model l; optimizer := optimizer l;
     best_loss := bl; best_epoch := best_epoch l;
     patience_count := patience_count l;
     best_model := Some bm; best_preds := Some bp |}.

(** model.py:276-286: the optimizer updates the model's parameters in
    place. *)
Definition train (args : Args) (l : Locals) : M (float * Locals) :=
  do p <- state_dict (model l);
  fun w =>
    let '(p', o', r', train_loss) :=
      train_sweep args (train_dataset l) p (optimizer l) (torch_rng w) in
    (ok (train_loss, set_optimizer o' l),
     set_torch_rng r' (set_heap (<[model l := p']> (heap w)) w)).

(** model.py:288-295 *)
Definition validate (args : Args) (l : Locals) : M (float * list Preds) :=
  do p <- state_dict (model l);
  ret (valid_sweep args (valid_dataset l) p).

(** model.py:302-308 *)
Definition early_stopping (valid_loss : float) (preds : list Preds)
    (l : Locals) : M Locals :=
  if PrimFloat.ltb valid_loss (best_loss l) then
    do best_model' <- copy_deepcopy (model l);
    ret (set_patience_count 0 (set_best best_model' preds valid_loss l))
  else
    ret (set_patience_count (patience_count l + 1) l).

(** One pass through the body of the [for] loop (model.py:275-312); the
    boolean tells whether it left through [break]. *)
Definition epoch_iteration (args : Args) (epoch : Z) (l : Locals)
  : M (Locals * bool) :=
  do _ <- emit (print_epoch epoch);
  do '(train_loss, l) <- train args l;
  do '(valid_loss, preds) <- validate args l;
  do _ <- emit (print_losses train_loss valid_loss);
  do _ <- (if nni args then
             do _ <- load_global "nni";
             emit (nni_report_intermediate_result valid_loss)
           else ret tt);
  do l <- early_stopping valid_loss preds l;
  if patience_count l =? patience args then
    do _ <- emit (print_early_stopping (patience args));
    ret (l, true)
  else ret (l, false).

Fixpoint for_epochs (args : Args) (epochs : list Z) (l : Locals) : M Locals :=
  match epochs with
  | [] => ret l
  | epoch :: rest =>
      do '(l, broke) <- epoch_iteration args epoch l;
      if broke then ret l else for_epochs args rest l
  end.

(** model.py:314-319.  A call reads the name of the callee before its
    arguments; [best_valid_loss] is assigned nowhere in [main], so it is
    read as a global. *)
Definition finish (args : Args) (l : Locals) : M unit :=
  do _ <- (if nni args then
             do _ <- load_global "nni";
             do _ <- load_global "best_valid_loss";
             emit nni_report_final_result
           else ret tt);
  let save_model_path := os_path_join (target_dir args) "best_model.pt" in
  do _ <- load_global "torch";
  do best_model' <- load_local "best_model" (best_model l);
  do sd <- state_dict best_model';
  do _ <- torch_save sd save_model_path;
  emit (print_saved save_model_path).

(** model.py:247-249 *)
Definition seed_generators (args : Args) : M unit :=
  if fixed_random_seed args then
    fun w => (ok tt, set_torch_rng (torch_manual_seed 1407)
                       (set_np_rng (np_random_seed 2021) w))
  else ret tt.

(** model.py:247-274: up to the first epoch.  [None] is the early
    [return] of the inference branch. *)
Definition setup (args : Args) : M (option Locals) :=
  do _ <- seed_generators args;
  if inference args then
    do _ <- emit print_not_implemented_inference;
    ret None
  else
    do train_dataset' <- EODataset_init "train" args;
    do valid_dataset' <- EODataset_init "valid" args;
    do train_arrays <- dataset_arrays train_dataset';
    do valid_arrays <- dataset_arrays valid_dataset';
    do model' <- EOModel_init args;
    do _ <- emit (print_device get_device);
    let optimizer' := Adam (learning_rate args) in
    ret (Some {| train_dataset := train_arrays;
                 valid_dataset := valid_arrays;
                 model := model';
                 optimizer := optimizer';
                 best_loss := infinity;
                 best_epoch := 0;
                 patience_count := 0;
                 best_model := None;
                 best_preds := None |}).

(** [main(args)].  Python's [main] returns nothing; here it returns the
    local variables it ended with, for the theorems to read. *)
Definition main (args : Args) : M (option Locals) :=
  do start <- setup args;
  match start with
  | None => ret None
  | Some l =>
      do l <- for_epochs args (py_range (max_epochs args)) l;
      do _ <- finish args l;
      ret (Some l)
  end.

End Script.

(** *** Reading a run

    What the theorems read off the events of a run, and the vocabulary of
    the specification's training-control loop. *)

Definition epochs_of (ev : list Event) : list Z :=
  omap (fun e => match e with print_epoch k => Some k | _ => None end) ev.

Definition valid_losses (ev : list Event) : list float :=
  omap (fun e => match e with print_losses _ v => Some v | _ => None end) ev.

Definition stopped_early (ev : list Event) : bool :=
  existsb (fun e => match e with print_early_stopping _ => true | _ => false end)
    ev.

(** The epochs that count as improving: those whose score is strictly
    lower than the best known before them. *)
Fixpoint improving (best : float) (scores : list float) : list bool :=
  match scores with
  | [] => []
  | s :: rest =>
      if PrimFloat.ltb s best then true :: improving s rest
      else false :: improving best rest
  end.

(** The best score known after the given epochs: that of the last
    improving one. *)
Fixpoint best_known (best : float) (scores : list float) : float :=
  match scores with
  | [] => best
  | s :: rest => best_known (if PrimFloat.ltb s best then s else best) rest
  end.

(** The number of consecutive non-improving epochs a sequence starts
    with, and the number it ends with. *)
Fixpoint leading_stagnant (flags : list bool) : nat :=
  match flags with
  | false :: rest => S (leading_stagnant rest)
  | _ => O
  end.

Definition trailing_stagnant (flags : list bool) : nat :=
  leading_stagnant (rev flags).

(** The two control variables of the loop, [(best_loss,
    patience_count)], through one epoch and through a sequence of
    epochs with the given validation losses. *)
Definition ctl_step (c : float * Z) (valid_loss : float) : float * Z :=
  if PrimFloat.ltb valid_loss (fst c) then (valid_loss, 0)
  else (fst c, snd c + 1).

Definition ctl_run (c : float * Z) (scores : list float) : float * Z :=
  fold_left ctl_step scores c.

(** How many epochs improved. *)
Fixpoint count_improving (flags : list bool) : nat :=
  match flags with
  | [] => O
  | true :: rest => S (count_improving rest)
  | false :: rest => count_improving rest
  end.

Section Invariants.

Context `{L : Libraries}.

(** What holds of the references between epochs: [model] is an object
    of the heap, and [best_model], once bound, is another one. *)
Definition references_ok (l : Locals) (w : World) : Prop :=
  (exists p, heap w !! model l = Some p) /\
  (forall b, best_model l = Some b ->
             b <> model l /\ (b < length (heap w))%nat).

(** What the [for] loop over [epochs] has done when it is left with
    locals [l'] in world [w'], having sent out the events [ev]. *)
Definition loop_post (patience : Z) (epochs : list Z)
    (l : Locals) (w : World) (l' : Locals) (w' : World) (ev : list Event)
  : Prop :=
  let scores := valid_losses ev in
  let c := (best_loss l, patience_count l) in
  let flags := improving (best_loss l) scores in
  log w' = log w ++ ev /\
  disk w' = disk w /\
  np_rng w' = np_rng w /\
  model l' = model l /\
  epochs_of ev = take (length scores) epochs /\
  (length scores <= length epochs)%nat /\
  (best_loss l', patience_count l') = ctl_run c scores /\
  (forall k, (0 < k < length scores)%nat ->
             snd (ctl_run c (take k scores)) <> patience) /\
  (stopped_early ev = true ->
   scores <> [] /\ patience_count l' = patience) /\
  (stopped_early ev = false ->
   length scores = length epochs /\
   (scores = [] \/ patience_count l' <> patience)) /\
  length (heap w') = (length (heap w) + count_improving flags)%nat /\
  (count_improving flags = O -> best_model l' = best_model l) /\
  (count_improving flags <> O -> is_Some (best_model l')) /\
  (forall b, b <> model l -> (b < length (heap w))%nat ->
             heap w' !! b = heap w !! b).

(** The parameters kept as the best model, if any. *)
Definition retained_snapshot (l : Locals) (w : World) : option Params :=
  match best_model l with
  | Some b => heap w !! b
  | None => None
  end.

End Invariants.

(** *** Runs to try the script on *)

(** The argparse defaults (model.py:323-340). *)
Definition default_args : Args := {|
  processed_data_dir := "/work/shared_data/2021-ai4eo/dev_data/default/";
  target_dir := ".";
  n_processes := 4;
  n_valid_patches := 10;
  s2_length := 32;
  n_time_frames := 1;
  overwrite := false;
  s2_random := false;
  n_s2 := 10;
  fixed_random_seed := true;
  inference := false;
  nni := false;
  learning_rate := 0.001%float;
  batch_size := 64;
  max_epochs := 100;
  patience := 6
|}.

(** [--max-epochs], [--patience] and [--nni] given on the command line. *)
Definition with_flags (max_epochs' patience' : Z) (nni' : bool) : Args := {|
  processed_data_dir := processed_data_dir default_args;
  target_dir := target_dir default_args;
  n_processes := n_processes default_args;
  n_valid_patches := n_valid_patches default_args;
  s2_length := s2_length default_args;
  n_time_frames := n_time_frames default_args;
  overwrite := overwrite default_args;
  s2_random := s2_random default_args;
  n_s2 := n_s2 default_args;
  fixed_random_seed := fixed_random_seed default_args;
  inference := inference default_args;
  nni := nni';
  learning_rate := learning_rate default_args;
  batch_size := batch_size default_args;
  max_epochs := max_epochs';
  patience := patience'
|}.

(** Libraries that replay a synthetic sequence of validation scores: the
    parameters of the model are the number of training sweeps it has
    been through, and the validation after the k-th sweep scores the
    k-th element ([nan] once the sequence is used up).  The generators
    are counters of the draws made. *)
Definition replay (scores : list float) : Libraries := {|
  Params := nat;
  Optim := unit;
  Preds := nat;
  EODataset := list string;
  NpRng := Z;
  TorchRng := Z;
  np_random_seed := fun seed => seed;
  torch_manual_seed := fun seed => seed;
  cuda_is_available := false;
  os_listdir := fun _ => ["eopatch-0"; "eopatch-1"];
  np_random_shuffle := fun l r => (if Z.even r then l else rev l, r + 1);
  load_patchlets := fun _ l r => (l, r);
  EOModel_parameters := fun _ r => (O, r + 1);
  Adam := fun _ => tt;
  train_sweep := fun _ _ p o r => (S p, o, r + 1, 0%float);
  valid_sweep := fun _ _ p => (nth (p - 1) scores nan, [p])
|}.

(** A fresh process under [replay]: nothing allocated, nothing written,
    and the generators in the state the operating system left them. *)
Definition fresh_process (scores : list float) (np torch : Z)
  : @World (replay scores) :=
  @Build_World (replay scores) [] np torch [] [].

(** The sequence of the specification's example. *)
Definition example_scores : list float := [0.5; 0.4; 0.6; 0.6; 0.6]%float.

(** Under [replay], the middle of a run: one model on the heap, three
    sweeps old, and locals with the given best loss and stagnation
    count and no best model yet. *)
Definition mid_world (scores : list float) : @World (replay scores) :=
  @Build_World (replay scores) [3%nat] 2021 1407 [] [].

Definition mid_locals (scores : list float) (best : float) (count : Z)
  : @Locals (replay scores) :=
  @Build_Locals (replay scores) [] [] 0%nat tt best 0 count None None.

(** [main] called with a namespace whose [fixed_random_seed],
    [inference] and [n_valid_patches] are the given ones. *)
Definition with_mode (fixed_random_seed' inference' : bool)
    (n_valid_patches' : Z) : Args := {|
  processed_data_dir := processed_data_dir default_args;
  target_dir := target_dir default_args;
  n_processes := n_processes default_args;
  n_valid_patches := n_valid_patches';
  s2_length := s2_length default_args;
  n_time_frames := n_time_frames default_args;
  overwrite := overwrite default_args;
  s2_random := s2_random default_args;
  n_s2 := n_s2 default_args;
  fixed_random_seed := fixed_random_seed';
  inference := inference';
  nni := nni default_args;
  learning_rate := learning_rate default_args;
  batch_size := batch_size default_args;
  max_epochs := max_epochs default_args;
  patience := patience default_args
|}.

End Model.

(** ** Exceptions met outside the training loops *)

Inductive Exc : Type :=
| Builtin (e : PyExc)
| IndexError (msg : string)
| KeyError (key : string)
| TypeError (msg : string)
| OverflowError (msg : string).

Definition outcome (A : Type) : Type := (Exc + A)%type.

Definition obind {A B} (m : outcome A) (k : A -> outcome B) : outcome B :=
  match m with
  | inl e => inl e
  | inr a => k a
  end.

Declare Scope outcome_scope.
Delimit Scope outcome_scope with outcome.
Notation "'do' x <- m ; k" := (obind m (fun x => k))
  (at level 10, x name, m at level 100, k at level 200) : outcome_scope.

(** ** model.py: the shapes through EOModel (model.py:187-200) *)

Module EOModel.

Local Open Scope outcome_scope.

(** model.py:22 *)
Definition SCALE : Z := 4.

(** A tensor, as far as [forward] looks at it: its shape. *)
Definition Shape : Type := list Z.

Definition numel (x : Shape) : Z := fold_right Z.mul 1 x.

Record Linear : Type := {
  in_features : Z;
  out_features : Z
}.

Record EOModel : Type := {
  lr1 : Linear;
  lr2 : Linear
}.

(** [EOModel(args)] (model.py:188-192) *)
Definition init (args : Model.Args) : EOModel :=
  {| lr1 := {| in_features := Model.s2_length args * Model.s2_length args;
               out_features := 16 |};
     lr2 := {| in_features := 16;
               out_features :=
                 SCALE * SCALE * Model.s2_length args * Model.s2_length args |}
  |}.

(** [torch.flatten(x, 1)]: the axes from the second on become one; a
    tensor with fewer than two axes has no axis 1. *)
Definition torch_flatten_1 (x : Shape) : outcome Shape :=
  match x with
  | d0 :: d1 :: rest => inr [d0; numel (d1 :: rest)]
  | _ => inl (IndexError "Dimension out of range")
  end.

(** [nn.Linear.forward]: the last axis must have [in_features]
    entries, and gets [out_features]. *)
Definition Linear_forward (l : Linear) (x : Shape) : outcome Shape :=
  match rev x with
  | k :: front =>
      if k =? in_features l then inr (rev front ++ [out_features l])
      else inl (Builtin (RuntimeError
                           "mat1 and mat2 shapes cannot be multiplied"))
  | [] =>
      inl (Builtin (RuntimeError
                      "mat1 and mat2 shapes cannot be multiplied"))
  end.

(** [F.relu] keeps the shape. *)
Definition F_relu (x : Shape) : Shape := x.

(** The sizes asked of [torch.reshape], read from left to right: at
    most one of them is [-1], the others are not negative. *)
Fixpoint infer_size_scan (shape : list Z) (inferred : bool) (newsize : Z)
  : outcome (bool * Z) :=
  match shape with
  | [] => inr (inferred, newsize)
  | d :: rest =>
      if d =? -1 then
        if inferred then
          inl (Builtin (RuntimeError "only one dimension can be inferred"))
        else infer_size_scan rest true newsize
      else if 0 <=? d then infer_size_scan rest inferred (newsize * d)
      else inl (Builtin (RuntimeError "invalid shape dimension"))
  end.

(** [torch.reshape(x, shape)] *)
Definition torch_reshape (x : Shape) (shape : list Z) : outcome Shape :=
  do scanned <- infer_size_scan shape false 1;
  let '(inferred, newsize) := scanned in
  if (numel x =? newsize)
     || (inferred && (0 <? newsize) && (numel x mod newsize =? 0)) then
    if inferred then
      if newsize =? 0 then
        inl (Builtin (RuntimeError
                        "cannot reshape tensor of 0 elements: the unspecified dimension size -1 is ambiguous"))
      else
        inr (map (fun d => if d =? -1 then numel x / newsize else d) shape)
    else inr shape
  else inl (Builtin (RuntimeError "shape is invalid for input size")).

(** [EOModel.forward] (model.py:194-200).  The sizes of the last
    reshape are read from the name [args], which is not a parameter of
    [forward] nor an attribute of the model but the global that
    model.py binds when it is run as a script (model.py:342):
    [module_args] is that global, [None] when it is not bound. *)
Definition forward (module_args : option Model.Args) (self : EOModel)
    (x : Shape) : outcome Shape :=
  do x <- torch_flatten_1 x;
  do x <- Linear_forward (lr1 self) x;
  let x := F_relu x in
  do x <- Linear_forward (lr2 self) x;
  do args <- match module_args with
             | Some a => inr a
             | None => inl (Builtin (NameError "args"))
             end;
  torch_reshape x [-1; SCALE * Model.s2_length args;
                   SCALE * Model.s2_length args].

End EOModel.

(** ** srresnet.py: add_nni_params (srresnet.py:304-318) *)

Module AddNniParams.

Local Open Scope outcome_scope.

(** The values a parameter can have: what argparse puts into the
    namespace and what nni's search space (JSON) offers.  [VOther] is
    any other object (a list, a dict): the function only asks of a
    value whether it is an [int] or a [str]. *)
Inductive Value : Type :=
| VNone
| VBool (b : bool)
| VInt (z : Z)
| VFloat (f : float)
| VStr (s : string)
| VOther.

(** [vars(args)]: the dict of the namespace, which the function
    updates in place. *)
Abbreviation Namespace := (gmap string Value).

(** [int(f)] for a float: the integer part, towards zero. *)
Definition int_of_float (f : float) : outcome Z :=
  match Prim2SF f with
  | S754_zero _ => inr 0
  | S754_infinity _ =>
      inl (OverflowError "cannot convert float infinity to integer")
  | S754_nan =>
      inl (Builtin (ValueError "cannot convert float NaN to integer"))
  | S754_finite sign m e =>
      let magnitude := Z.shiftl (Zpos m) e in
      inr (if sign then - magnitude else magnitude)
  end.

(** [int(value)]; [int_of_str] is Python's reading of an integer
    literal. *)
Definition py_int (int_of_str : string -> option Z) (value : Value)
  : outcome Z :=
  match value with
  | VInt z => inr z
  | VBool b => inr (if b then 1 else 0)
  | VFloat f => int_of_float f
  | VStr s =>
      match int_of_str s with
      | Some z => inr z
      | None =>
          inl (Builtin (ValueError "invalid literal for int() with base 10"))
      end
  | VNone | VOther =>
      inl (TypeError
             "int() argument must be a string, a bytes-like object or a real number")
  end.

(** One item of the dict comprehension of srresnet.py:309-310. *)
Definition cast_item (int_of_str : string -> option Z) (args_dict : Namespace)
    (item : string * Value) : outcome (string * Value) :=
  let '(key, value) := item in
  match args_dict !! key with
  | Some (VInt _) =>
      do z <- py_int int_of_str value;
      inr (key, VInt z)
  | Some _ => inr (key, value)
  | None => inl (KeyError key)
  end.

Fixpoint dict_comprehension {A B} (f : A -> outcome B) (items : list A)
  : outcome (list B) :=
  match items with
  | [] => inr []
  | item :: rest =>
      do b <- f item;
      do bs <- dict_comprehension f rest;
      inr (b :: bs)
  end.

(** [d.update(other)] *)
Definition dict_update (d : Namespace) (other : list (string * Value))
  : Namespace :=
  fold_left (fun d item => <[fst item := snd item]> d) other d.

(** [os.path.expandvars('$NNI_OUTPUT_DIR')]: the value of the
    environment variable, and the text as it stands when the variable
    is not set. *)
Definition expandvars_NNI_OUTPUT_DIR (environ : option string) : string :=
  match environ with
  | Some v => v
  | None => "$NNI_OUTPUT_DIR"
  end.

(** [os.path.basename(p)]: what follows the last slash. *)
Fixpoint after_last_slash (p : string) : option string :=
  match p with
  | EmptyString => None
  | String c rest =>
      match after_last_slash rest with
      | Some s => Some s
      | None => if Ascii.eqb c "/" then Some rest else None
      end
  end.

Definition os_path_basename (p : string) : string :=
  match after_last_slash p with
  | Some s => s
  | None => p
  end.

(** The loop of srresnet.py:315-317, on the dict as it is then. *)
Fixpoint adjust_paths (nni_output_dir : string) (params : list string)
    (args_dict : Namespace) : outcome unit * Namespace :=
  match params with
  | [] => (inr tt, args_dict)
  | param :: rest =>
      match args_dict !! param with
      | None => (inl (KeyError param), args_dict)
      | Some (VStr p) =>
          let nni_path :=
            Model.os_path_join nni_output_dir (os_path_basename p) in
          adjust_paths nni_output_dir rest
            (<[param := VStr nni_path]> args_dict)
      | Some _ =>
          (inl (TypeError "expected str, bytes or os.PathLike object"),
           args_dict)
      end
  end.

(** [add_nni_params(args)]: what it raises, if it does, and the
    namespace as it leaves it (the function returns the namespace it
    was given, changed in place).  [nni_parameters] is what
    [nni.get_next_parameter()] returns, in the order of its keys, and
    [None] when the import of srresnet.py:2-5 failed and left the name
    [nni] unbound; [environ] is the environment variable
    NNI_OUTPUT_DIR. *)
Definition add_nni_params (nni_parameters : option (list (string * Value)))
    (environ : option string) (int_of_str : string -> option Z)
    (args : Namespace) : outcome unit * Namespace :=
  match nni_parameters with
  | None => (inl (Builtin (NameError "nni")), args)
  | Some args_nni =>
      if negb (forallb (fun item => bool_decide (is_Some (args !! fst item)))
                 args_nni) then
        (inl (Builtin (AssertionError "need only valid parameters")), args)
      else
        match dict_comprehension (cast_item int_of_str args) args_nni with
        | inl e => (inl e, args)
        | inr args_nni_casted =>
            let args_dict := dict_update args args_nni_casted in
            let nni_output_dir := expandvars_NNI_OUTPUT_DIR environ in
            adjust_paths nni_output_dir ["save_model_path"; "output_path"]
              args_dict
        end
  end.

(** The namespace argparse builds from the defaults of
    srresnet.py:341-353 (the flags of [pl.Trainer] left out). *)
Definition default_namespace : Namespace :=
  list_to_map
    [("data_dir", VStr "data");
     ("output_path", VStr "data/best_hr_predictions.h5");
     ("save_model_path", VStr "saved_models");
     ("batch_size", VInt 16);
     ("learning_rate", VFloat 0.001%float);
     ("scaling_factor", VInt 4);
     ("n_channels", VInt 64);
     ("input_channels", VInt 3);
     ("large_kernel_size", VInt 9);
     ("small_kernel_size", VInt 3);
     ("n_blocks", VInt 16);
     ("n_epochs", VInt 200);
     ("nni", VBool true)].

(** A reading of integer literals that knows no literal at all. *)
Definition no_literal (s : string) : option Z := None.

(** [args'] has the parameters of [args], and an [int] wherever
    [args] has one. *)
Definition same_parameters (args args' : Namespace) : Prop :=
  (forall key, is_Some (args' !! key) <-> is_Some (args !! key)) /\
  (forall key z, args !! key = Some (VInt z) ->
                 exists z', args' !! key = Some (VInt z')).

End AddNniParams.

(** * Theorems *)

(** ** The error monad *)

Lemma rbind_ok {A B} (a : A) (k : A -> result B) : rbind (ok a) k = k a.
Proof. reflexivity. Qed.

Lemma py_assert_true (msg : string) : py_assert true msg = ok tt.
Proof. reflexivity. Qed.

Lemma length_py_range (n : Z) : length (py_range n) = Z.to_nat n.
Proof. unfold py_range. rewrite List.length_map, length_seq. reflexivity. Qed.

(** ** srresnet.py: construction *)

Section SRResNetConstruction.

Import SRResNet.

Lemma comprehension_ok {A} (a : A) (n : nat) :
  comprehension (ok a) n = ok (repeat a n).
Proof.
  induction n as [|n IH]; [reflexivity|].
  cbn [comprehension repeat]. rewrite rbind_ok, IH. reflexivity.
Qed.

Lemma int_in_248 (s : Z) :
  int_in s [2; 4; 8] = true <-> s = 2 \/ s = 4 \/ s = 8.
Proof.
  unfold int_in. cbn [existsb]. rewrite !orb_true_iff, !Z.eqb_eq.
  intuition discriminate.
Qed.

Lemma ConvolutionalBlock_init_prelu cin cout k bn :
  ConvolutionalBlock_init cin cout k 1 bn (Some "PReLu")
  = ok (conv_layers cin cout k bn [PReLU]).
Proof. destruct bn; reflexivity. Qed.

Lemma ConvolutionalBlock_init_tanh cin cout k bn :
  ConvolutionalBlock_init cin cout k 1 bn (Some "Tanh")
  = ok (conv_layers cin cout k bn [Tanh]).
Proof. destruct bn; reflexivity. Qed.

Lemma ConvolutionalBlock_init_none cin cout k bn :
  ConvolutionalBlock_init cin cout k 1 bn None
  = ok (conv_layers cin cout k bn []).
Proof. destruct bn; reflexivity. Qed.

Lemma ResidualBlock_init_ok args :
  ResidualBlock_init args = ok (residual_block args).
Proof.
  unfold ResidualBlock_init.
  rewrite ConvolutionalBlock_init_prelu, rbind_ok.
  rewrite ConvolutionalBlock_init_none, rbind_ok. reflexivity.
Qed.

Lemma SRResNet_init_ok args :
  int_in (scaling_factor args) [2; 4; 8] = true ->
  SRResNet_init args = ok (built args).
Proof.
  intros Hs. unfold SRResNet_init. rewrite Hs, py_assert_true, rbind_ok.
  rewrite ConvolutionalBlock_init_prelu, rbind_ok.
  rewrite ResidualBlock_init_ok, comprehension_ok, rbind_ok.
  rewrite ConvolutionalBlock_init_none, rbind_ok.
  assert (int_log2 (scaling_factor args) = ok (Z.log2 (scaling_factor args)))
    as ->.
  { apply int_in_248 in Hs. unfold int_log2.
    destruct Hs as [-> | [-> | ->]]; reflexivity. }
  rewrite rbind_ok. unfold SubPixelConvolutionalBlock_init.
  rewrite comprehension_ok, rbind_ok.
  rewrite ConvolutionalBlock_init_tanh, rbind_ok. reflexivity.
Qed.

Lemma SRResNet_init_inv args net :
  SRResNet_init args = ok net -> net = built args.
Proof.
  intros H.
  destruct (int_in (scaling_factor args) [2; 4; 8]) eqn:Hs.
  - rewrite (SRResNet_init_ok _ Hs) in H. injection H as <-. reflexivity.
  - unfold SRResNet_init in H. rewrite Hs in H. discriminate.
Qed.

(** C3. For every requested scale factor outside {2, 4, 8} the
    constructor of SRResNet raises the assertion error of
    srresnet.py:206; it returns no network, so there is nothing a forward
    pass could be called on. *)
Theorem invalid_scaling_factor_fails_construction (args : Args) :
  scaling_factor args <> 2 ->
  scaling_factor args <> 4 ->
  scaling_factor args <> 8 ->
  SRResNet_init args
  = raise (AssertionError "The scaling factor must be 2, 4, or 8!")
  /\ forall net, SRResNet_init args <> ok net.
Proof.
  intros H2 H4 H8.
  assert (int_in (scaling_factor args) [2; 4; 8] = false) as Hs.
  { destruct (int_in _ _) eqn:E; [|reflexivity].
    apply int_in_248 in E. tauto. }
  assert (SRResNet_init args
          = raise (AssertionError "The scaling factor must be 2, 4, or 8!"))
    as Hinit.
  { unfold SRResNet_init. rewrite Hs. reflexivity. }
  split; [exact Hinit|].
  intros net Hnet. rewrite Hinit in Hnet. discriminate.
Qed.

Lemma invalid_scaling_factor_fails_construction_witness :
  SRResNet_init (flags 3 9)
  = raise (AssertionError "The scaling factor must be 2, 4, or 8!")
  /\ forall net, SRResNet_init (flags 3 9) <> ok net.
Proof.
  apply (invalid_scaling_factor_fails_construction (flags 3 9));
    simpl; lia.
Defined.

End SRResNetConstruction.

(** ** srresnet.py: sizes through the forward pass *)

Section SRResNetSizes.

Import SRResNet.

Lemma odd_half (k : Z) : Z.odd k = true -> 2 * (k / 2) = k - 1.
Proof.
  intros Hodd. pose proof (Zmod_odd k) as Hm. rewrite Hodd in Hm.
  pose proof (Z.div_mod k 2 ltac:(lia)). lia.
Qed.

Lemma even_half (k : Z) : Z.even k = true -> 2 * (k / 2) = k.
Proof.
  intros Heven. pose proof (Zmod_even k) as Hm. rewrite Heven in Hm.
  pose proof (Z.div_mod k 2 ltac:(lia)). lia.
Qed.

Lemma conv2d_out_same (x k : Z) :
  Z.odd k = true -> conv2d_out x k 1 (k / 2) = x.
Proof.
  intros Hodd. unfold conv2d_out. rewrite Z.div_1_r.
  pose proof (odd_half k Hodd). lia.
Qed.

Lemma conv2d_out_even (x k : Z) :
  Z.even k = true -> conv2d_out x k 1 (k / 2) = x + 1.
Proof.
  intros Heven. unfold conv2d_out. rewrite Z.div_1_r.
  pose proof (even_half k Heven). lia.
Qed.

Lemma conv_same_size self tr cin cout k x :
  dim_c x = cin -> Z.odd k = true -> 1 <= dim_w x -> 1 <= dim_h x ->
  size_layer_forward self tr (Conv2d cin cout k 1 (k / 2)) x
  = ok (with_channels cout x).
Proof.
  intros Hc Hodd Hw Hh. unfold size_layer_forward.
  rewrite Hc, Z.eqb_refl. cbn [negb].
  pose proof (odd_half k Hodd) as Hhalf.
  destruct (Z.ltb_spec (dim_w x + 2 * (k / 2)) k); [lia|].
  destruct (Z.ltb_spec (dim_h x + 2 * (k / 2)) k); [lia|].
  cbn [orb]. rewrite !conv2d_out_same by assumption. reflexivity.
Qed.

Lemma batch_norm_same_size self tr nf x :
  dim_c x = nf ->
  (tr = true -> dim_n x * dim_w x * dim_h x <> 1) ->
  size_layer_forward self tr (BatchNorm2d nf) x = ok x.
Proof.
  intros Hc Hone. unfold size_layer_forward.
  rewrite Hc, Z.eqb_refl. cbn [negb].
  destruct tr; [|reflexivity].
  destruct (Z.eqb_spec (dim_n x * dim_w x * dim_h x) 1) as [E|E];
    [exfalso; apply (Hone eq_refl E)|reflexivity].
Qed.

Lemma size_add_same x : size_add x x = ok x.
Proof.
  unfold size_add, broadcast_dim. rewrite !Z.eqb_refl.
  destruct x; reflexivity.
Qed.

Lemma with_channels_same x : with_channels (dim_c x) x = x.
Proof. destruct x; reflexivity. Qed.

Lemma activations_keep_size self tr i act r :
  Forall (fun l => forall p y, size_layer_forward p tr l y = ok y) act ->
  Sequential_from size_layer_forward self tr i act r = ok r.
Proof.
  intros Hact. revert i.
  induction Hact as [|a act Ha _ IH]; intros i; [reflexivity|].
  cbn [Sequential_from]. rewrite Ha, rbind_ok. apply IH.
Qed.

Lemma ConvolutionalBlock_size self tr cin cout k bn act x :
  Forall (fun l => forall p y, size_layer_forward p tr l y = ok y) act ->
  dim_c x = cin -> Z.odd k = true -> accepted tr x ->
  ConvolutionalBlock_forward self tr (conv_layers cin cout k bn act) x
  = ok (with_channels cout x).
Proof.
  intros Hact Hc Hodd (Hw & Hh & Hone).
  unfold ConvolutionalBlock_forward, Sequential_forward, conv_layers.
  cbn [conv_block Sequential_from layer_forward size_torch].
  rewrite conv_same_size by assumption. rewrite rbind_ok.
  destruct bn; cbn [app Sequential_from].
  - rewrite batch_norm_same_size by (try reflexivity; exact Hone).
    rewrite rbind_ok. apply activations_keep_size, Hact.
  - apply activations_keep_size, Hact.
Qed.

Lemma prelu_keeps_size tr :
  Forall (fun l => forall p y, size_layer_forward p tr l y = ok y) [PReLU].
Proof. repeat constructor. Qed.

Lemma tanh_keeps_size tr :
  Forall (fun l => forall p y, size_layer_forward p tr l y = ok y) [Tanh].
Proof. repeat constructor. Qed.

Lemma ResidualBlock_size self tr args x :
  dim_c x = n_channels args -> Z.odd (small_kernel_size args) = true ->
  accepted tr x ->
  ResidualBlock_forward self tr (residual_block args) x = ok x.
Proof.
  intros Hc Hodd Hacc. unfold ResidualBlock_forward, residual_block.
  cbn [rb_conv_block1 rb_conv_block2].
  assert (with_channels (n_channels args) x = x) as Hx
    by (rewrite <- Hc; apply with_channels_same).
  rewrite (ConvolutionalBlock_size _ tr _ _ _ true [PReLU] x
             (prelu_keeps_size tr) Hc Hodd Hacc), rbind_ok, Hx.
  rewrite (ConvolutionalBlock_size _ tr _ _ _ true [] x
             (List.Forall_nil _) Hc Hodd Hacc), rbind_ok, Hx.
  cbn [tensor_add size_torch]. rewrite size_add_same. reflexivity.
Qed.

Lemma residual_blocks_size self tr args n x i :
  dim_c x = n_channels args -> Z.odd (small_kernel_size args) = true ->
  accepted tr x ->
  Sequential_from ResidualBlock_forward self tr i
    (repeat (residual_block args) n) x = ok x.
Proof.
  intros Hc Hodd Hacc. revert i.
  induction n as [|n IH]; intros i; [reflexivity|].
  cbn [repeat Sequential_from].
  rewrite ResidualBlock_size by assumption. rewrite rbind_ok. apply IH.
Qed.

Lemma SubPixelConvolutionalBlock_size self tr args x :
  dim_c x = n_channels args -> Z.odd (small_kernel_size args) = true ->
  1 <= dim_w x -> 1 <= dim_h x ->
  SubPixelConvolutionalBlock_forward self tr (subpixel_block args) x
  = ok (doubled x).
Proof.
  intros Hc Hodd Hw Hh.
  unfold SubPixelConvolutionalBlock_forward, subpixel_block.
  cbn [conv pixel_shuffle prelu layer_forward size_torch].
  rewrite conv_same_size by assumption. rewrite rbind_ok.
  change (2 ^ 2) with 4.
  cbn [size_layer_forward with_channels dim_c dim_n dim_w dim_h].
  change (2 * 2) with 4.
  rewrite Z.mod_mul by lia. rewrite Z.eqb_refl. cbn [negb].
  rewrite Z.div_mul by lia. rewrite !rbind_ok.
  unfold doubled. rewrite Hc. reflexivity.
Qed.

Lemma subpixel_blocks_size self tr args n x i :
  dim_c x = n_channels args -> Z.odd (small_kernel_size args) = true ->
  1 <= dim_w x -> 1 <= dim_h x ->
  Sequential_from SubPixelConvolutionalBlock_forward self tr i
    (repeat (subpixel_block args) n) x = ok (doubled_times n x).
Proof.
  revert x i. induction n as [|n IH]; intros x i Hc Hodd Hw Hh;
    [reflexivity|].
  cbn [repeat Sequential_from doubled_times].
  rewrite SubPixelConvolutionalBlock_size by assumption. rewrite rbind_ok.
  apply IH; cbn [doubled dim_c dim_w dim_h]; try assumption; lia.
Qed.

Lemma doubled_times_size n x :
  doubled_times n x
  = {| dim_n := dim_n x; dim_c := dim_c x;
       dim_w := dim_w x * 2 ^ Z.of_nat n; dim_h := dim_h x * 2 ^ Z.of_nat n |}.
Proof.
  revert x. induction n as [|n IH]; intros x.
  - cbn [doubled_times]. change (2 ^ Z.of_nat 0) with 1.
    rewrite !Z.mul_1_r. destruct x; reflexivity.
  - cbn [doubled_times]. rewrite IH. cbn [doubled dim_n dim_c dim_w dim_h].
    rewrite Nat2Z.inj_succ, Z.pow_succ_r by lia.
    f_equal; lia.
Qed.

Lemma forward_built_size args tr x :
  int_in (scaling_factor args) [2; 4; 8] = true ->
  Z.odd (large_kernel_size args) = true ->
  Z.odd (small_kernel_size args) = true ->
  dim_c x = input_channels args ->
  accepted tr x ->
  forward (in_mode tr (built args)) x
  = ok {| dim_n := dim_n x; dim_c := 1;
          dim_w := dim_w x * scaling_factor args;
          dim_h := dim_h x * scaling_factor args |}.
Proof.
  intros Hs Hlarge Hsmall Hc Hacc.
  assert (training (in_mode tr (built args)) = tr) as Htr
    by (destruct tr; reflexivity).
  unfold forward. rewrite Htr.
  replace (conv_block1 (in_mode tr (built args)))
    with (conv_block1 (built args)) by (destruct tr; reflexivity).
  replace (residual_blocks (in_mode tr (built args)))
    with (residual_blocks (built args)) by (destruct tr; reflexivity).
  replace (conv_block2 (in_mode tr (built args)))
    with (conv_block2 (built args)) by (destruct tr; reflexivity).
  replace (subpixel_convolutional_blocks (in_mode tr (built args)))
    with (subpixel_convolutional_blocks (built args))
    by (destruct tr; reflexivity).
  replace (conv_block3 (in_mode tr (built args)))
    with (conv_block3 (built args)) by (destruct tr; reflexivity).
  replace (sigmoid (in_mode tr (built args))) with Sigmoid
    by (destruct tr; reflexivity).
  cbn [built conv_block1 residual_blocks conv_block2
       subpixel_convolutional_blocks conv_block3].
  set (y := with_channels (n_channels args) x).
  assert (dim_c y = n_channels args) as Hyc by reflexivity.
  assert (accepted tr y) as Hyacc by exact Hacc.
  rewrite (ConvolutionalBlock_size _ tr _ _ _ false [PReLU] x
             (prelu_keeps_size tr) Hc Hlarge Hacc), rbind_ok.
  fold y. unfold Sequential_forward.
  rewrite residual_blocks_size by assumption. rewrite rbind_ok.
  rewrite (ConvolutionalBlock_size _ tr _ _ _ true [] y
             (List.Forall_nil _) Hyc Hsmall Hyacc), rbind_ok.
  replace (with_channels (n_channels args) y) with y by reflexivity.
  cbn [tensor_add size_torch]. rewrite size_add_same, rbind_ok.
  destruct Hacc as (Hw & Hh & _).
  rewrite subpixel_blocks_size by assumption. rewrite rbind_ok.
  rewrite doubled_times_size. cbn [dim_n dim_c dim_w dim_h y with_channels].
  set (z := {| dim_n := dim_n x; dim_c := n_channels args;
               dim_w := dim_w x * 2 ^ Z.of_nat (Z.to_nat (Z.log2 (scaling_factor args)));
               dim_h := dim_h x * 2 ^ Z.of_nat (Z.to_nat (Z.log2 (scaling_factor args))) |}).
  assert (2 ^ Z.of_nat (Z.to_nat (Z.log2 (scaling_factor args)))
          = scaling_factor args) as Hpow.
  { apply int_in_248 in Hs. destruct Hs as [-> | [-> | ->]]; reflexivity. }
  assert (accepted tr z) as Hzacc.
  { unfold accepted, z. cbn [dim_n dim_w dim_h]. rewrite Hpow.
    apply int_in_248 in Hs. split; [|split]; [nia | nia |].
    intros _ Hone.
    assert (dim_w x * scaling_factor args * (dim_n x * (dim_h x * scaling_factor args)) = 1)
      as Hone' by lia.
    apply Z.mul_eq_1 in Hone'. nia. }
  rewrite (ConvolutionalBlock_size _ tr _ _ _ false [Tanh] z
             (tanh_keeps_size tr) eq_refl Hlarge Hzacc), rbind_ok.
  cbn [layer_forward size_torch size_layer_forward]. rewrite rbind_ok.
  unfold z, with_channels. cbn [dim_n dim_c dim_w dim_h]. rewrite Hpow.
  reflexivity.
Qed.

(** C4, as amended.  For every scale factor [s] in {2, 4, 8} and odd
    kernel sizes, every batch [(n, input_channels, w, h)] with
    [w, h >= 1], of any number [n] of images (and, in training mode,
    more than one value per channel) goes through the forward pass and
    comes out with size
    [(n, 1, w * s, h * s)]: the convolutions keep the size, and each of
    the log2(s) sub-pixel blocks doubles width and height.  Kernel sizes
    and channel counts are taken positive, as torch's constructors want
    them. *)
Theorem forward_output_size (args : Args) (tr : bool) (n w h : Z) :
  scaling_factor args = 2 \/ scaling_factor args = 4
    \/ scaling_factor args = 8 ->
  Z.odd (large_kernel_size args) = true ->
  Z.odd (small_kernel_size args) = true ->
  1 <= large_kernel_size args -> 1 <= small_kernel_size args ->
  1 <= input_channels args -> 1 <= n_channels args ->
  1 <= w -> 1 <= h ->
  (tr = true -> n * w * h <> 1) ->
  exists net,
    SRResNet_init args = ok net /\
    forward (in_mode tr net) (batch args n w h)
    = ok {| dim_n := n; dim_c := 1;
            dim_w := w * scaling_factor args;
            dim_h := h * scaling_factor args |}.
Proof.
  intros Hs Hlarge Hsmall _ _ _ _ Hw Hh Hone.
  apply int_in_248 in Hs.
  exists (built args). split; [apply SRResNet_init_ok, Hs|].
  apply (forward_built_size args tr (batch args n w h));
    try assumption; try reflexivity.
  unfold accepted, batch. cbn [dim_n dim_w dim_h]. auto.
Qed.

Lemma forward_output_size_witness :
  exists net,
    SRResNet_init (flags 4 9) = ok net /\
    forward (in_mode true net) (batch (flags 4 9) 16 24 24)
    = ok {| dim_n := 16; dim_c := 1; dim_w := 24 * 4; dim_h := 24 * 4 |}.
Proof.
  apply (forward_output_size (flags 4 9) true 16 24 24);
    cbn; first [reflexivity | lia | auto].
Defined.

(** C4 as stated fails when a kernel size is even: with
    [--large_kernel_size 4] and scale factor 2, the first and the last
    convolution each add one row and one column, and an 8 x 8 batch
    comes out 19 x 19 instead of 16 x 16. *)
Lemma even_kernel_changes_output_size :
  exists net,
    SRResNet_init (flags 2 4) = ok net /\
    forward net (batch (flags 2 4) 1 8 8)
    = ok {| dim_n := 1; dim_c := 1; dim_w := 19; dim_h := 19 |} /\
    19 <> 8 * scaling_factor (flags 2 4).
Proof.
  eexists. split; [reflexivity|]. split; [vm_compute; reflexivity|].
  cbn. lia.
Qed.

End SRResNetSizes.

(** ** srresnet.py: values through the forward pass *)

Section SRResNetValues.

Import SRResNet.

Variable learned : Path -> bool -> Layer -> list R -> list R.
Variable sum_ : list R -> list R -> list R.

Abbreviation values := (values_torch learned sum_).

Lemma torch_sigmoid_bounds (x : R) : (0 < torch_sigmoid x < 1)%R.
Proof.
  unfold torch_sigmoid. pose proof (exp_pos (- x)) as Hexp.
  split.
  - apply Rdiv_lt_0_compat; lra.
  - apply (Rmult_lt_reg_r (1 + exp (- x))); [lra|].
    unfold Rdiv. rewrite Rmult_assoc, Rinv_l by lra. lra.
Qed.

Lemma values_layer_total self tr l (x : list R) :
  exists y, layer_forward (Torch := values) self tr l x = ok y.
Proof. destruct l; eexists; reflexivity. Qed.

Lemma Sequential_from_total {M : Type}
    (fwd : Path -> bool -> M -> list R -> result (list R)) :
  (forall p t m x, exists y, fwd p t m x = ok y) ->
  forall self tr children i x,
    exists y, Sequential_from fwd self tr i children x = ok y.
Proof.
  intros Hfwd self tr children.
  induction children as [|m rest IH]; intros i x.
  - exists x. reflexivity.
  - cbn [Sequential_from].
    destruct (Hfwd (self ++ [Idx i]) tr m x) as [y ->].
    rewrite rbind_ok. apply IH.
Qed.

Lemma ConvolutionalBlock_total self tr b (x : list R) :
  exists y, ConvolutionalBlock_forward (ops := values) self tr b x = ok y.
Proof.
  unfold ConvolutionalBlock_forward, Sequential_forward.
  apply Sequential_from_total. intros p t m z. apply values_layer_total.
Qed.

Lemma ResidualBlock_total self tr b (x : list R) :
  exists y, ResidualBlock_forward (ops := values) self tr b x = ok y.
Proof.
  unfold ResidualBlock_forward.
  destruct (ConvolutionalBlock_total (self ++ [Attr "conv_block1"]) tr
              (rb_conv_block1 b) x) as [y1 ->].
  rewrite rbind_ok.
  destruct (ConvolutionalBlock_total (self ++ [Attr "conv_block2"]) tr
              (rb_conv_block2 b) y1) as [y2 ->].
  rewrite rbind_ok. eexists. reflexivity.
Qed.

Lemma SubPixelConvolutionalBlock_total self tr b (x : list R) :
  exists y, SubPixelConvolutionalBlock_forward (ops := values) self tr b x = ok y.
Proof.
  unfold SubPixelConvolutionalBlock_forward.
  destruct (values_layer_total (self ++ [Attr "conv"]) tr (conv b) x)
    as [y1 ->].
  rewrite rbind_ok.
  destruct (values_layer_total (self ++ [Attr "pixel_shuffle"]) tr
              (pixel_shuffle b) y1) as [y2 ->].
  rewrite rbind_ok.
  destruct (values_layer_total (self ++ [Attr "prelu"]) tr (prelu b) y2)
    as [y3 ->].
  rewrite rbind_ok. eexists. reflexivity.
Qed.

(** The last two steps of [forward]: [conv_block3], which ends in
    [nn.Tanh], and [self.sigmoid]. *)
Lemma last_steps_bounded tr args (x : list R) :
  exists y,
    rbind (ConvolutionalBlock_forward (ops := values) [Attr "conv_block3"] tr
             (conv_block3 (built args)) x)
      (fun sr_imgs =>
         rbind (layer_forward (Torch := values) [Attr "sigmoid"] tr Sigmoid
                  sr_imgs) ok)
    = ok y
    /\ Forall (fun v => (0 <= v <= 1)%R) y.
Proof.
  eexists. split; [reflexivity|].
  apply List.Forall_forall. intros v Hv.
  apply in_map_iff in Hv. destruct Hv as (u & <- & _).
  pose proof (torch_sigmoid_bounds u). lra.
Qed.

Lemma forward_built_bounded args tr (x : list R) :
  exists y,
    forward (ops := values) (in_mode tr (built args)) x = ok y
    /\ Forall (fun v => (0 <= v <= 1)%R) y.
Proof.
  unfold forward.
  replace (conv_block3 (in_mode tr (built args)))
    with (conv_block3 (built args)) by (destruct tr; reflexivity).
  replace (sigmoid (in_mode tr (built args))) with Sigmoid
    by (destruct tr; reflexivity).
  replace (training (in_mode tr (built args))) with tr
    by (destruct tr; reflexivity).
  destruct (ConvolutionalBlock_total [Attr "conv_block1"] tr
              (conv_block1 (in_mode tr (built args))) x) as [y1 ->].
  rewrite rbind_ok. unfold Sequential_forward.
  destruct (Sequential_from_total (ResidualBlock_forward (ops := values))
              ResidualBlock_total
              [Attr "residual_blocks"] tr
              (residual_blocks (in_mode tr (built args))) 0%nat y1)
    as [y2 ->].
  rewrite rbind_ok.
  destruct (ConvolutionalBlock_total [Attr "conv_block2"] tr
              (conv_block2 (in_mode tr (built args))) y2) as [y3 ->].
  rewrite rbind_ok. cbn [tensor_add values_torch]. rewrite rbind_ok.
  destruct (Sequential_from_total
              (SubPixelConvolutionalBlock_forward (ops := values))
              SubPixelConvolutionalBlock_total
              [Attr "subpixel_convolutional_blocks"] tr
              (subpixel_convolutional_blocks (in_mode tr (built args)))
              0%nat (sum_ y3 y1)) as [y4 ->].
  rewrite rbind_ok.
  apply (last_steps_bounded tr args y4).
Qed.

End SRResNetValues.

Section SRResNetBounded.

Import SRResNet.



End SRResNetBounded.

(** ** model.py: one epoch *)

Section ModelEpoch.

Import Model.

Context `{L : Libraries}.

Lemma bind_ok {A B} (m : M A) (k : A -> M B) (w w' : World) (a : A) :
  m w = (ok a, w') -> bind m k w = k a w'.
Proof. intros H. unfold bind. rewrite H. reflexivity. Qed.

Lemma bind_raise {A B} (m : M A) (k : A -> M B) (w w' : World) (e : PyExc) :
  m w = (raise e, w') -> bind m k w = (raise e, w').
Proof. intros H. unfold bind. rewrite H. reflexivity. Qed.

Lemma state_dict_ok (o : loc) (w : World) (p : Params) :
  heap w !! o = Some p -> state_dict o w = (ok p, w).
Proof. intros H. unfold state_dict. rewrite H. reflexivity. Qed.

(** The Improved and the Stagnant transition (model.py:302-308). *)
Lemma early_stopping_improved valid_loss preds l w p :
  heap w !! model l = Some p ->
  PrimFloat.ltb valid_loss (best_loss l) = true ->
  early_stopping valid_loss preds l w
  = (ok (set_patience_count 0
           (set_best (length (heap w)) preds valid_loss l)),
     set_heap (heap w ++ [p]) w).
Proof.
  intros Hp Hlt. unfold early_stopping. rewrite Hlt.
  unfold copy_deepcopy, bind, state_dict, new_object. rewrite Hp.
  reflexivity.
Qed.

Lemma early_stopping_stagnant valid_loss preds l w :
  PrimFloat.ltb valid_loss (best_loss l) = false ->
  early_stopping valid_loss preds l w
  = (ok (set_patience_count (patience_count l + 1) l), w).
Proof. intros Hlt. unfold early_stopping. rewrite Hlt. reflexivity. Qed.

Lemma emit_ok (e : Event) (w : World) :
  emit e w = (ok tt, set_log (log w ++ [e]) w).
Proof. reflexivity. Qed.

Lemma train_ok args l w p p' o' r' tl :
  heap w !! model l = Some p ->
  train_sweep args (train_dataset l) p (optimizer l) (torch_rng w)
  = (p', o', r', tl) ->
  train args l w
  = (ok (tl, set_optimizer o' l),
     set_torch_rng r' (set_heap (<[model l := p']> (heap w)) w)).
Proof.
  intros Hp Hsweep. unfold train.
  rewrite (bind_ok _ _ w w p) by (apply state_dict_ok, Hp).
  rewrite Hsweep. reflexivity.
Qed.

Lemma validate_ok args l w p :
  heap w !! model l = Some p ->
  validate args l w = (ok (valid_sweep args (valid_dataset l) p), w).
Proof.
  intros Hp. unfold validate.
  rewrite (bind_ok _ _ w w p) by (apply state_dict_ok, Hp).
  reflexivity.
Qed.

Lemma epoch_iteration_spec args epoch l w p :
  nni args = false ->
  heap w !! model l = Some p ->
  exists tl vl preds l' w' p',
    epoch_iteration args epoch l w
    = (ok (l', patience_count l' =? patience args), w')
    /\ log w'
       = log w ++ print_epoch epoch :: print_losses tl vl
           :: (if patience_count l' =? patience args
               then [print_early_stopping (patience args)] else [])
    /\ disk w' = disk w
    /\ np_rng w' = np_rng w
    /\ model l' = model l
    /\ (best_loss l', patience_count l')
       = ctl_step (best_loss l, patience_count l) vl
    /\ (if PrimFloat.ltb vl (best_loss l)
        then best_model l' = Some (length (heap w))
             /\ heap w' = <[model l := p']> (heap w) ++ [p']
             /\ best_preds l' = Some preds
        else best_model l' = best_model l
             /\ heap w' = <[model l := p']> (heap w)
             /\ best_preds l' = best_preds l).
Proof.
  intros Hnni Hp.
  assert (model l < length (heap w))%nat as Hlen
    by (apply lookup_lt_is_Some; eauto).
  destruct (train_sweep args (train_dataset l) p (optimizer l) (torch_rng w))
    as [[[p' o'] r'] tl] eqn:Htrain.
  destruct (valid_sweep args (valid_dataset l) p') as [vl preds] eqn:Hvalid.
  set (w0 := set_log (log w ++ [print_epoch epoch]) w).
  set (l1 := set_optimizer o' l).
  set (w1 := set_torch_rng r' (set_heap (<[model l := p']> (heap w0)) w0)).
  set (w2 := set_log (log w1 ++ [print_losses tl vl]) w1).
  assert (heap w2 !! model l1 = Some p') as Hp2
    by (cbn; apply list_lookup_insert_eq, Hlen).
  assert (epoch_iteration args epoch l w
          = bind (early_stopping vl preds l1)
              (fun l' =>
                 if patience_count l' =? patience args then
                   bind (emit (print_early_stopping (patience args)))
                     (fun _ => ret (l', true))
                 else ret (l', false)) w2) as ->.
  { unfold epoch_iteration.
    rewrite (bind_ok _ _ w w0 tt) by apply emit_ok.
    rewrite (bind_ok _ _ w0 w1 (tl, l1))
      by (apply (train_ok args l w0 p p' o' r' tl); assumption).
    rewrite (bind_ok _ _ w1 w1 (vl, preds)).
    2:{ rewrite <- Hvalid. apply (validate_ok args l1 w1 p').
        cbn. apply list_lookup_insert_eq, Hlen. }
    rewrite (bind_ok _ _ w1 w2 tt) by apply emit_ok.
    rewrite Hnni. rewrite (bind_ok _ _ w2 w2 tt) by reflexivity.
    reflexivity. }
  exists tl, vl, preds.
  destruct (PrimFloat.ltb vl (best_loss l)) eqn:Hlt.
  - rewrite (bind_ok _ _ _ _ _
               (early_stopping_improved vl preds l1 w2 p' Hp2 Hlt)).
    set (l2 := set_patience_count 0 (set_best (length (heap w2)) preds vl l1)).
    change (patience_count l2) with 0.
    exists l2. change (patience_count l2) with 0.
    destruct (0 =? patience args) eqn:Hbrk.
    + eexists _, p'. split; [reflexivity|].
      cbn -[Z.eqb Z.add]. unfold ctl_step. cbn -[Z.eqb Z.add].
      rewrite Hlt, length_insert, <- !app_assoc.
      repeat split; reflexivity.
    + eexists _, p'. split; [reflexivity|].
      cbn -[Z.eqb Z.add]. unfold ctl_step. cbn -[Z.eqb Z.add].
      rewrite Hlt, length_insert, <- !app_assoc.
      repeat split; reflexivity.
  - rewrite (bind_ok _ _ _ _ _
               (early_stopping_stagnant vl preds l1 w2 Hlt)).
    set (l2 := set_patience_count (patience_count l1 + 1) l1).
    change (patience_count l2) with (patience_count l + 1).
    exists l2. change (patience_count l2) with (patience_count l + 1).
    destruct (patience_count l + 1 =? patience args) eqn:Hbrk.
    + eexists _, p'. split; [reflexivity|].
      cbn -[Z.eqb Z.add]. unfold ctl_step. cbn -[Z.eqb Z.add].
      rewrite Hlt, <- !app_assoc.
      repeat split; reflexivity.
    + eexists _, p'. split; [reflexivity|].
      cbn -[Z.eqb Z.add]. unfold ctl_step. cbn -[Z.eqb Z.add].
      rewrite Hlt, <- !app_assoc.
      repeat split; reflexivity.
Qed.


End ModelEpoch.

(** ** model.py: the loop *)

Section ModelLoop.

Import Model.

Context `{L : Libraries}.

Lemma references_ok_after_epoch l w l' w' p' vl preds :
  references_ok l w ->
  model l' = model l ->
  (if PrimFloat.ltb vl (best_loss l)
   then best_model l' = Some (length (heap w))
        /\ heap w' = <[model l := p']> (heap w) ++ [p']
        /\ best_preds l' = Some preds
   else best_model l' = best_model l
        /\ heap w' = <[model l := p']> (heap w)
        /\ best_preds l' = best_preds l) ->
  references_ok l' w'
  /\ (forall b, b <> model l -> (b < length (heap w))%nat ->
                heap w' !! b = heap w !! b).
Proof.
  intros [[p Hp] Hbest] Hmodel Hcase.
  assert (model l < length (heap w))%nat as Hlen
    by (apply lookup_lt_is_Some; eauto).
  destruct (PrimFloat.ltb vl (best_loss l)).
  - destruct Hcase as (Hbm & Hheap & _). split; [split|].
    + exists p'. rewrite Hmodel, Hheap.
      rewrite lookup_app_l by (rewrite length_insert; exact Hlen).
      apply list_lookup_insert_eq, Hlen.
    + intros b Hb. rewrite Hbm in Hb. injection Hb as <-.
      rewrite Hmodel, Hheap, length_app, length_insert. cbn. lia.
    + intros b Hne Hb. rewrite Hheap.
      rewrite lookup_app_l by (rewrite length_insert; exact Hb).
      apply list_lookup_insert_ne. congruence.
  - destruct Hcase as (Hbm & Hheap & _). split; [split|].
    + exists p'. rewrite Hmodel, Hheap.
      apply list_lookup_insert_eq, Hlen.
    + intros b Hb. rewrite Hbm in Hb. rewrite Hmodel, Hheap, length_insert.
      apply Hbest, Hb.
    + intros b Hne Hb. rewrite Hheap.
      apply list_lookup_insert_ne. congruence.
Qed.

Lemma ctl_run_cons c s rest :
  ctl_run c (s :: rest) = ctl_run (ctl_step c s) rest.
Proof. reflexivity. Qed.

Lemma valid_losses_epoch epoch tl vl ev :
  valid_losses (print_epoch epoch :: print_losses tl vl :: ev)
  = vl :: valid_losses ev.
Proof. reflexivity. Qed.

Lemma epochs_of_epoch epoch tl vl ev :
  epochs_of (print_epoch epoch :: print_losses tl vl :: ev)
  = epoch :: epochs_of ev.
Proof. reflexivity. Qed.

Lemma stopped_early_epoch epoch tl vl ev :
  stopped_early (print_epoch epoch :: print_losses tl vl :: ev)
  = stopped_early ev.
Proof. reflexivity. Qed.

(** What one epoch does to the heap and to [best_model], by cases on
    whether it improved. *)
Lemma epoch_heap_facts l w l1 w1 vl preds p1 :
  (best_loss l1, patience_count l1)
  = ctl_step (best_loss l, patience_count l) vl ->
  (if PrimFloat.ltb vl (best_loss l)
   then best_model l1 = Some (length (heap w))
        /\ heap w1 = <[model l := p1]> (heap w) ++ [p1]
        /\ best_preds l1 = Some preds
   else best_model l1 = best_model l
        /\ heap w1 = <[model l := p1]> (heap w)
        /\ best_preds l1 = best_preds l) ->
  length (heap w1)
  = (length (heap w) + count_improving [PrimFloat.ltb vl (best_loss l)])%nat
  /\ (forall scores,
        improving (best_loss l) (vl :: scores)
        = PrimFloat.ltb vl (best_loss l) :: improving (best_loss l1) scores)
  /\ (PrimFloat.ltb vl (best_loss l) = false -> best_model l1 = best_model l)
  /\ (PrimFloat.ltb vl (best_loss l) = true -> is_Some (best_model l1)).
Proof.
  intros Hctl Hcase.
  unfold ctl_step in Hctl. cbn [fst snd] in Hctl. cbn [improving].
  destruct (PrimFloat.ltb vl (best_loss l));
    destruct Hcase as (Hbm & Hheap & _);
    injection Hctl as Hbl _; rewrite Hheap, Hbl.
  - rewrite length_app, length_insert. cbn [length count_improving].
    split; [lia|]. split; [reflexivity|]. split; [discriminate|].
    intros _. rewrite Hbm. eauto.
  - rewrite length_insert. cbn [count_improving].
    split; [lia|]. split; [reflexivity|]. split; [intros _; exact Hbm|].
    discriminate.
Qed.

(** The epoch that leaves the loop through [break]. *)
Lemma loop_post_break patience epoch rest l w l1 w1 tl vl preds p1 :
  references_ok l w ->
  log w1
  = log w ++ [print_epoch epoch; print_losses tl vl;
              print_early_stopping patience] ->
  disk w1 = disk w -> np_rng w1 = np_rng w -> model l1 = model l ->
  (best_loss l1, patience_count l1)
  = ctl_step (best_loss l, patience_count l) vl ->
  (if PrimFloat.ltb vl (best_loss l)
   then best_model l1 = Some (length (heap w))
        /\ heap w1 = <[model l := p1]> (heap w) ++ [p1]
        /\ best_preds l1 = Some preds
   else best_model l1 = best_model l
        /\ heap w1 = <[model l := p1]> (heap w)
        /\ best_preds l1 = best_preds l) ->
  patience_count l1 = patience ->
  loop_post patience (epoch :: rest) l w l1 w1
    [print_epoch epoch; print_losses tl vl; print_early_stopping patience].
Proof.
  intros Hrefs Hlog Hdisk Hnp Hmodel Hctl Hcase Hpc.
  destruct (references_ok_after_epoch l w l1 w1 p1 vl preds Hrefs Hmodel Hcase)
    as [Hrefs1 Hkeep].
  destruct (epoch_heap_facts l w l1 w1 vl preds p1 Hctl Hcase)
    as (Hlen1 & Himp & Hsame & Hsome).
  unfold loop_post.
  change (valid_losses [print_epoch epoch; print_losses tl vl;
                        print_early_stopping patience]) with [vl].
  change (epochs_of [print_epoch epoch; print_losses tl vl;
                     print_early_stopping patience]) with [epoch].
  change (stopped_early [print_epoch epoch; print_losses tl vl;
                         print_early_stopping patience]) with true.
  cbn zeta. rewrite (Himp []).
  cbn [length take ctl_run fold_left improving count_improving].
  split; [exact Hlog|]. split; [exact Hdisk|]. split; [exact Hnp|].
  split; [exact Hmodel|]. split; [reflexivity|]. split; [lia|].
  split; [exact Hctl|]. split; [intros k Hk; lia|].
  split; [intros _; split; [discriminate | exact Hpc]|].
  split; [discriminate|].
  split; [exact Hlen1|].
  split.
  { intros Hzero. apply Hsame.
    destruct (PrimFloat.ltb vl (best_loss l)); [discriminate|reflexivity]. }
  split.
  { intros Hnz. apply Hsome.
    destruct (PrimFloat.ltb vl (best_loss l)); [reflexivity|].
    exfalso. apply Hnz. reflexivity. }
  exact Hkeep.
Qed.

(** The epoch after which the loop goes on. *)
Lemma loop_post_continue patience epoch rest l w l1 w1 l' w' tl vl preds p1 ev :
  references_ok l w ->
  log w1 = log w ++ [print_epoch epoch; print_losses tl vl] ->
  disk w1 = disk w -> np_rng w1 = np_rng w -> model l1 = model l ->
  (best_loss l1, patience_count l1)
  = ctl_step (best_loss l, patience_count l) vl ->
  (if PrimFloat.ltb vl (best_loss l)
   then best_model l1 = Some (length (heap w))
        /\ heap w1 = <[model l := p1]> (heap w) ++ [p1]
        /\ best_preds l1 = Some preds
   else best_model l1 = best_model l
        /\ heap w1 = <[model l := p1]> (heap w)
        /\ best_preds l1 = best_preds l) ->
  patience_count l1 <> patience ->
  loop_post patience rest l1 w1 l' w' ev ->
  loop_post patience (epoch :: rest) l w l' w'
    (print_epoch epoch :: print_losses tl vl :: ev).
Proof.
  intros Hrefs Hlog Hdisk Hnp Hmodel Hctl Hcase Hne Hpost.
  destruct (references_ok_after_epoch l w l1 w1 p1 vl preds Hrefs Hmodel Hcase)
    as [Hrefs1 Hkeep].
  destruct (epoch_heap_facts l w l1 w1 vl preds p1 Hctl Hcase)
    as (Hlen1 & Himp & Hsame & Hsome).
  unfold loop_post in Hpost |- *.
  rewrite valid_losses_epoch, epochs_of_epoch, stopped_early_epoch.
  cbn zeta in Hpost |- *. rewrite Himp, ctl_run_cons, <- Hctl.
  destruct Hpost as (Plog & Pdisk & Pnp & Pmodel & Pep & Plen & Pctl & Pk
                     & Pstop & Pgo & Pheap & Pnone & Psome & Pkeep).
  split; [rewrite Plog, Hlog, <- app_assoc; reflexivity|].
  split; [congruence|]. split; [congruence|]. split; [congruence|].
  split; [cbn [length take]; rewrite Pep; reflexivity|].
  split; [cbn [length]; lia|].
  split; [exact Pctl|].
  split.
  { intros k Hk. cbn [length] in Hk.
    destruct k as [|k]; [lia|]. cbn [take].
    rewrite ctl_run_cons, <- Hctl.
    destruct k as [|k].
    - rewrite take_0. exact Hne.
    - apply Pk. lia. }
  split.
  { intros Hstop. destruct (Pstop Hstop) as [_ Hpc]. split; [discriminate|].
    exact Hpc. }
  split.
  { intros Hgo. destruct (Pgo Hgo) as [Hl Hor]. split; [cbn [length]; lia|].
    right. destruct Hor as [Hnil | Hne']; [|exact Hne'].
    rewrite Hnil in Pctl. cbn [ctl_run fold_left] in Pctl.
    injection Pctl as _ Hpc'. rewrite Hpc'. exact Hne. }
  split.
  { rewrite Pheap, Hlen1. cbn [count_improving].
    destruct (PrimFloat.ltb vl (best_loss l)); lia. }
  split.
  { intros Hzero. cbn [count_improving] in Hzero.
    destruct (PrimFloat.ltb vl (best_loss l)) eqn:Hlt; [discriminate|].
    rewrite (Pnone Hzero). apply Hsame. reflexivity. }
  split.
  { intros Hnz. cbn [count_improving] in Hnz.
    destruct (PrimFloat.ltb vl (best_loss l)) eqn:Hlt.
    - destruct (Nat.eq_dec
                  (count_improving (improving (best_loss l1) (valid_losses ev)))
                  0%nat) as [Hz | Hz].
      + rewrite (Pnone Hz). apply Hsome. reflexivity.
      + apply Psome, Hz.
    - apply Psome, Hnz. }
  intros b Hneb Hb. rewrite <- (Hkeep b Hneb Hb). apply Pkeep.
  - congruence.
  - rewrite Hlen1. lia.
Qed.

Lemma loop_post_nil patience l w : loop_post patience [] l w l w [].
Proof.
  unfold loop_post. cbn. rewrite app_nil_r, Nat.add_0_r.
  repeat split; try reflexivity; try discriminate; try lia; try tauto.
Qed.

(** Without nni, the loop over any list of epochs runs to its end, and
    leaves the references in order. *)
Lemma for_epochs_spec args epochs : forall l w,
  nni args = false ->
  references_ok l w ->
  exists l' w' ev,
    for_epochs args epochs l w = (ok l', w')
    /\ references_ok l' w'
    /\ loop_post (patience args) epochs l w l' w' ev.
Proof.
  induction epochs as [|epoch rest IH]; intros l w Hnni Hrefs.
  - exists l, w, []. split; [reflexivity|]. split; [exact Hrefs|].
    apply loop_post_nil.
  - pose proof Hrefs as [[p Hp] _].
    destruct (epoch_iteration_spec args epoch l w p Hnni Hp)
      as (tl & vl & preds & l1 & w1 & p1 & Hit & Hlog & Hdisk & Hnp
          & Hmodel & Hctl & Hcase).
    destruct (references_ok_after_epoch l w l1 w1 p1 vl preds Hrefs Hmodel
                Hcase) as [Hrefs1 _].
    cbn [for_epochs]. rewrite (bind_ok _ _ _ _ _ Hit).
    destruct (Z.eqb_spec (patience_count l1) (patience args)) as [Hpc | Hpc].
    + exists l1, w1, [print_epoch epoch; print_losses tl vl;
                      print_early_stopping (patience args)].
      split; [reflexivity|]. split; [exact Hrefs1|].
      apply (loop_post_break _ _ _ l w l1 w1 tl vl preds p1); assumption.
    + destruct (IH l1 w1 Hnni Hrefs1) as (l' & w' & ev & Hrun & Hrefs' & Hpost).
      exists l', w', (print_epoch epoch :: print_losses tl vl :: ev).
      split; [exact Hrun|]. split; [exact Hrefs'|].
      apply (loop_post_continue _ _ _ l w l1 w1 l' w' tl vl preds p1);
        assumption.
Qed.

End ModelLoop.

(** ** The vocabulary of the loop: improving epochs and stagnation *)

Section Stagnation.

Import Model.

Lemma improving_length b s : length (improving b s) = length s.
Proof.
  revert b. induction s as [|x r IH]; intros b; [reflexivity|].
  cbn [improving]. destruct (PrimFloat.ltb x b); cbn [length]; rewrite IH;
    reflexivity.
Qed.

Lemma improving_take b s k :
  improving b (take k s) = take k (improving b s).
Proof.
  revert b k. induction s as [|x r IH]; intros b k.
  - destruct k; reflexivity.
  - destruct k as [|k]; [reflexivity|].
    cbn [take improving]. destruct (PrimFloat.ltb x b); cbn [take];
      rewrite IH; reflexivity.
Qed.

Lemma count_improving_app l1 l2 :
  count_improving (l1 ++ l2) = (count_improving l1 + count_improving l2)%nat.
Proof.
  induction l1 as [|[] l1 IH]; cbn [app count_improving]; lia.
Qed.

Lemma count_improving_rev l : count_improving (rev l) = count_improving l.
Proof.
  induction l as [|a l IH]; [reflexivity|].
  cbn [rev]. rewrite count_improving_app, IH. destruct a; cbn; lia.
Qed.

Lemma leading_stagnant_snoc l x :
  leading_stagnant (l ++ [x])
  = if (count_improving l =? 0)%nat
    then (length l + if x then 0 else 1)%nat
    else leading_stagnant l.
Proof.
  induction l as [|[] l IH].
  - destruct x; reflexivity.
  - reflexivity.
  - cbn [app leading_stagnant count_improving length]. rewrite IH.
    destruct (count_improving l =? 0)%nat; lia.
Qed.

Lemma trailing_stagnant_cons f fl :
  trailing_stagnant (f :: fl)
  = if (count_improving fl =? 0)%nat
    then (length fl + if f then 0 else 1)%nat
    else trailing_stagnant fl.
Proof.
  unfold trailing_stagnant. cbn [rev].
  rewrite leading_stagnant_snoc, count_improving_rev, length_rev.
  reflexivity.
Qed.

Lemma ctl_run_fst b c s : fst (ctl_run (b, c) s) = best_known b s.
Proof.
  revert b c. induction s as [|x r IH]; intros b c; [reflexivity|].
  cbn [best_known]. change (ctl_run (b, c) (x :: r))
    with (ctl_run (ctl_step (b, c) x) r).
  unfold ctl_step. cbn [fst snd].
  destruct (PrimFloat.ltb x b); apply IH.
Qed.

Lemma ctl_run_snd b c s :
  snd (ctl_run (b, c) s)
  = if (count_improving (improving b s) =? 0)%nat
    then c + Z.of_nat (length s)
    else Z.of_nat (trailing_stagnant (improving b s)).
Proof.
  revert b c. induction s as [|x r IH]; intros b c.
  - cbn. lia.
  - change (ctl_run (b, c) (x :: r)) with (ctl_run (ctl_step (b, c) x) r).
    unfold ctl_step. cbn [fst snd improving].
    destruct (PrimFloat.ltb x b).
    + rewrite IH, trailing_stagnant_cons, improving_length.
      cbn [count_improving Nat.eqb].
      destruct (count_improving (improving x r) =? 0)%nat; lia.
    + rewrite IH, trailing_stagnant_cons.
      cbn [count_improving length].
      destruct (count_improving (improving b r) =? 0)%nat; [lia|reflexivity].
Qed.

Lemma leading_stagnant_all l :
  count_improving l = O -> leading_stagnant l = length l.
Proof.
  induction l as [|[] l IH]; cbn [count_improving leading_stagnant length];
    intros H; [reflexivity | discriminate | rewrite IH by exact H; reflexivity].
Qed.

(** From [patience_count = 0], the counter is the number of
    consecutive non-improving epochs the sequence ends with. *)
Lemma ctl_run_stagnation b s :
  snd (ctl_run (b, 0) s) = Z.of_nat (trailing_stagnant (improving b s)).
Proof.
  rewrite ctl_run_snd.
  destruct (count_improving (improving b s) =? 0)%nat eqn:E; [|reflexivity].
  apply Nat.eqb_eq in E. unfold trailing_stagnant.
  rewrite leading_stagnant_all by (rewrite count_improving_rev; exact E).
  rewrite length_rev, improving_length. lia.
Qed.

Lemma ctl_run_nonneg b c s : 0 <= c -> 0 <= snd (ctl_run (b, c) s).
Proof.
  intros Hc. rewrite ctl_run_snd.
  destruct (count_improving (improving b s) =? 0)%nat; lia.
Qed.

End Stagnation.

(** ** model.py: before and after the loop *)

Section ModelMain.

Import Model.

Context `{L : Libraries}.

Lemma seed_generators_fixed args w :
  fixed_random_seed args = true ->
  seed_generators args w
  = (ok tt, set_torch_rng (torch_manual_seed 1407)
              (set_np_rng (np_random_seed 2021) w)).
Proof. intros H. unfold seed_generators. rewrite H. reflexivity. Qed.

Lemma EODataset_init_spec flag args w :
  fixed_random_seed args = true ->
  String.eqb flag "test" = false ->
  exists ds w',
    EODataset_init flag args w = (ok (Some ds), w')
    /\ heap w' = heap w /\ disk w' = disk w /\ log w' = log w.
Proof.
  intros Hseed Hflag. unfold EODataset_init. rewrite Hflag, Hseed.
  unfold bind, py_assert, ret.
  destruct (np_random_shuffle (os_listdir (processed_data_dir args)) (np_rng w))
    as [fp r] eqn:Hshuffle.
  unfold ok. cbn beta iota. cbn [np_rng set_np_rng].
  match goal with
  | |- context [load_patchlets ?a ?f ?g] =>
      destruct (load_patchlets a f g) as [ds r'] eqn:Hload
  end.
  eexists _, _. split; [reflexivity|]. cbn. auto.
Qed.

(** With the seed fixed and outside inference, [main] reaches the loop
    with the initial values of model.py:270-272, a model on the heap and
    no best model yet. *)
Lemma setup_spec args w :
  fixed_random_seed args = true ->
  inference args = false ->
  exists l0 w0,
    setup args w = (ok (Some l0), w0)
    /\ best_loss l0 = infinity
    /\ patience_count l0 = 0
    /\ best_model l0 = None
    /\ references_ok l0 w0
    /\ log w0 = log w ++ [print_device get_device]
    /\ disk w0 = disk w
    /\ length (heap w0) = S (length (heap w)).
Proof.
  intros Hseed Hinf. unfold setup.
  rewrite (bind_ok _ _ _ _ _ (seed_generators_fixed args w Hseed)), Hinf.
  set (ws := set_torch_rng _ _).
  destruct (EODataset_init_spec "train" args ws Hseed eq_refl)
    as (tr & w1 & Htr & Hh1 & Hd1 & Hl1).
  rewrite (bind_ok _ _ _ _ _ Htr).
  destruct (EODataset_init_spec "valid" args w1 Hseed eq_refl)
    as (va & w2 & Hva & Hh2 & Hd2 & Hl2).
  rewrite (bind_ok _ _ _ _ _ Hva).
  rewrite (bind_ok _ _ w2 w2 tr) by reflexivity.
  rewrite (bind_ok _ _ w2 w2 va) by reflexivity.
  unfold EOModel_init, new_object, emit, bind, ret.
  destruct (EOModel_parameters args (torch_rng w2)) as [p r] eqn:Hinit.
  cbn [heap set_torch_rng set_heap set_log log].
  eexists _, _. split; [reflexivity|].
  cbn [best_loss patience_count best_model model].
  split; [reflexivity|]. split; [reflexivity|]. split; [reflexivity|].
  split.
  { split.
    - exists p. cbn [heap set_log set_heap set_torch_rng].
      apply list_lookup_middle. reflexivity.
    - intros b Hb. discriminate. }
  cbn [log set_log set_heap set_torch_rng disk heap].
  rewrite Hl2, Hl1, Hd2, Hd1, Hh2, Hh1.
  split; [reflexivity|]. split; [reflexivity|].
  rewrite length_app. subst ws. cbn [length heap set_torch_rng set_np_rng].
  lia.
Qed.

Lemma load_global_torch w : load_global "torch" w = (ok tt, w).
Proof. reflexivity. Qed.

Lemma load_global_nni w : load_global "nni" w = (raise (NameError "nni"), w).
Proof. reflexivity. Qed.

Lemma load_global_best_valid_loss w :
  load_global "best_valid_loss" w
  = (raise (NameError "best_valid_loss"), w).
Proof. reflexivity. Qed.

(** After the loop, without nni: one write when [best_model] is bound,
    an error and no write when it is not. *)
Lemma finish_bound args l w b sd :
  nni args = false ->
  best_model l = Some b ->
  heap w !! b = Some sd ->
  finish args l w
  = (ok tt,
     set_log (log w ++ [print_saved (os_path_join (target_dir args)
                                       "best_model.pt")])
       (set_disk (disk w ++ [(os_path_join (target_dir args) "best_model.pt",
                              sd)]) w)).
Proof.
  intros Hnni Hb Hsd. unfold finish. rewrite Hnni, Hb.
  rewrite (bind_ok _ _ w w tt) by reflexivity.
  rewrite (bind_ok _ _ w w tt) by apply load_global_torch.
  rewrite (bind_ok _ _ w w b) by reflexivity.
  rewrite (bind_ok _ _ w w sd) by (apply state_dict_ok, Hsd).
  reflexivity.
Qed.

Lemma finish_unbound args l w :
  nni args = false ->
  best_model l = None ->
  finish args l w = (raise (UnboundLocalError "best_model"), w).
Proof.
  intros Hnni Hb. unfold finish. rewrite Hnni, Hb.
  rewrite (bind_ok _ _ w w tt) by reflexivity.
  rewrite (bind_ok _ _ w w tt) by apply load_global_torch.
  reflexivity.
Qed.

Lemma finish_nni args l w :
  nni args = true ->
  finish args l w = (raise (NameError "nni"), w).
Proof.
  intros Hnni. unfold finish. rewrite Hnni.
  apply bind_raise. apply bind_raise. apply load_global_nni.
Qed.

(** [main] without nni, with the seed fixed and outside inference:
    the setup, then the loop, then [finish] on what the loop left. *)
Lemma main_spec args w :
  fixed_random_seed args = true ->
  inference args = false ->
  nni args = false ->
  exists l0 w0 l' w1 ev,
    setup args w = (ok (Some l0), w0)
    /\ best_loss l0 = infinity
    /\ patience_count l0 = 0
    /\ best_model l0 = None
    /\ log w0 = log w ++ [print_device get_device]
    /\ disk w0 = disk w
    /\ length (heap w0) = S (length (heap w))
    /\ for_epochs args (py_range (max_epochs args)) l0 w0 = (ok l', w1)
    /\ references_ok l' w1
    /\ loop_post (patience args) (py_range (max_epochs args)) l0 w0 l' w1 ev
    /\ main args w = bind (finish args l') (fun _ => ret (Some l')) w1.
Proof.
  intros Hseed Hinf Hnni.
  destruct (setup_spec args w Hseed Hinf)
    as (l0 & w0 & Hsetup & Hbl & Hpc & Hbm & Hrefs & Hlog & Hdisk & Hheap).
  destruct (for_epochs_spec args (py_range (max_epochs args)) l0 w0 Hnni Hrefs)
    as (l' & w1 & ev & Hloop & Hrefs' & Hpost).
  exists l0, w0, l', w1, ev.
  repeat (split; [assumption|]).
  unfold main. rewrite (bind_ok _ _ _ _ _ Hsetup).
  rewrite (bind_ok _ _ _ _ _ Hloop). reflexivity.
Qed.

(** With nni, the first epoch stops at the report of line 300, where
    the name [nni] is read. *)
Lemma epoch_iteration_nni args epoch l w p :
  nni args = true ->
  heap w !! model l = Some p ->
  exists tl vl w',
    epoch_iteration args epoch l w = (raise (NameError "nni"), w')
    /\ log w' = log w ++ [print_epoch epoch; print_losses tl vl]
    /\ disk w' = disk w.
Proof.
  intros Hnni Hp.
  assert (model l < length (heap w))%nat as Hlen
    by (apply lookup_lt_is_Some; eauto).
  destruct (train_sweep args (train_dataset l) p (optimizer l) (torch_rng w))
    as [[[p' o'] r'] tl] eqn:Htrain.
  destruct (valid_sweep args (valid_dataset l) p') as [vl preds] eqn:Hvalid.
  set (w0 := set_log (log w ++ [print_epoch epoch]) w).
  set (l1 := set_optimizer o' l).
  set (w1 := set_torch_rng r' (set_heap (<[model l := p']> (heap w0)) w0)).
  set (w2 := set_log (log w1 ++ [print_losses tl vl]) w1).
  exists tl, vl, w2. split.
  - unfold epoch_iteration.
    rewrite (bind_ok _ _ w w0 tt) by apply emit_ok.
    rewrite (bind_ok _ _ w0 w1 (tl, l1))
      by (apply (train_ok args l w0 p p' o' r' tl); assumption).
    rewrite (bind_ok _ _ w1 w1 (vl, preds)).
    2:{ rewrite <- Hvalid. apply (validate_ok args l1 w1 p').
        cbn. apply list_lookup_insert_eq, Hlen. }
    rewrite (bind_ok _ _ w1 w2 tt) by apply emit_ok.
    rewrite Hnni. apply bind_raise. apply bind_raise. apply load_global_nni.
  - subst w2 w1 w0. cbn. rewrite <- app_assoc. split; reflexivity.
Qed.

Lemma main_nni args w :
  fixed_random_seed args = true ->
  inference args = false ->
  nni args = true ->
  exists w' ev,
    main args w = (raise (NameError "nni"), w')
    /\ log w' = log w ++ ev
    /\ stopped_early ev = false
    /\ disk w' = disk w.
Proof.
  intros Hseed Hinf Hnni.
  destruct (setup_spec args w Hseed Hinf)
    as (l0 & w0 & Hsetup & Hbl & Hpc & Hbm & Hrefs & Hlog & Hdisk & _).
  unfold main. rewrite (bind_ok _ _ _ _ _ Hsetup).
  destruct (py_range (max_epochs args)) as [|epoch rest].
  - cbn [for_epochs]. rewrite (bind_ok _ _ w0 w0 l0) by reflexivity.
    exists w0, [print_device get_device]. split.
    + apply bind_raise. apply finish_nni, Hnni.
    + split; [exact Hlog|]. split; [reflexivity | exact Hdisk].
  - destruct Hrefs as [[p Hp] _].
    destruct (epoch_iteration_nni args epoch l0 w0 p Hnni Hp)
      as (tl & vl & w1 & Hit & Hlog1 & Hdisk1).
    exists w1, [print_device get_device; print_epoch epoch;
                print_losses tl vl].
    split.
    + apply bind_raise. cbn [for_epochs]. apply bind_raise. exact Hit.
    + split; [rewrite Hlog1, Hlog, <- app_assoc; reflexivity|].
      split; [reflexivity | congruence].
Qed.

Lemma valid_losses_frame d ev tail :
  valid_losses tail = [] ->
  valid_losses ([print_device d] ++ ev ++ tail) = valid_losses ev.
Proof.
  intros Htail. unfold valid_losses in *.
  rewrite !omap_app, Htail, app_nil_r. reflexivity.
Qed.

Lemma epochs_of_frame d ev tail :
  epochs_of tail = [] ->
  epochs_of ([print_device d] ++ ev ++ tail) = epochs_of ev.
Proof.
  intros Htail. unfold epochs_of in *.
  rewrite !omap_app, Htail, app_nil_r. reflexivity.
Qed.

Lemma stopped_early_frame d ev tail :
  stopped_early tail = false ->
  stopped_early ([print_device d] ++ ev ++ tail) = stopped_early ev.
Proof.
  intros Htail. unfold stopped_early in *.
  rewrite !existsb_app, Htail, orb_false_r. reflexivity.
Qed.

(** A whole run of [main] without nni, read off its events: which
    epochs ran, what the control variables ended at, when the loop
    stopped, how many snapshots were taken, and what was written. *)
Lemma main_outcome args w :
  fixed_random_seed args = true ->
  inference args = false ->
  nni args = false ->
  exists r w' ev l',
    main args w = (r, w')
    /\ log w' = log w ++ ev
    /\ epochs_of ev
       = take (length (valid_losses ev)) (py_range (max_epochs args))
    /\ (length (valid_losses ev) <= Z.to_nat (max_epochs args))%nat
    /\ best_loss l' = best_known infinity (valid_losses ev)
    /\ patience_count l'
       = Z.of_nat (trailing_stagnant (improving infinity (valid_losses ev)))
    /\ (forall k, (0 < k < length (valid_losses ev))%nat ->
          Z.of_nat (trailing_stagnant
                      (take k (improving infinity (valid_losses ev))))
          <> patience args)
    /\ (stopped_early ev = true ->
        valid_losses ev <> [] /\ patience_count l' = patience args)
    /\ (stopped_early ev = false ->
        length (valid_losses ev) = Z.to_nat (max_epochs args)
        /\ (valid_losses ev = [] \/ patience_count l' <> patience args))
    /\ length (heap w')
       = (length (heap w) + 1
          + count_improving (improving infinity (valid_losses ev)))%nat
    /\ (count_improving (improving infinity (valid_losses ev)) <> O ->
        exists b sd,
          r = ok (Some l')
          /\ best_model l' = Some b
          /\ heap w' !! b = Some sd
          /\ disk w'
             = disk w ++ [(os_path_join (target_dir args) "best_model.pt",
                           sd)])
    /\ (count_improving (improving infinity (valid_losses ev)) = O ->
        r = raise (UnboundLocalError "best_model") /\ disk w' = disk w).
Proof.
  intros Hseed Hinf Hnni.
  destruct (main_spec args w Hseed Hinf Hnni)
    as (l0 & w0 & l' & w1 & ev & _ & Hbl & Hpc & Hbm & Hlog0 & Hdisk0 & Hheap0
        & _ & Hrefs & Hpost & Hmain).
  unfold loop_post in Hpost. cbn zeta in Hpost.
  rewrite Hbl, Hpc, Hbm in Hpost.
  destruct Hpost as (Plog & Pdisk & _ & _ & Pep & Plen & Pctl & Pk & Pstop
                     & Pgo & Pheap & Pnone & Psome & _).
  rewrite length_py_range in Plen, Pgo.
  assert (best_loss l' = best_known infinity (valid_losses ev)) as Hbest.
  { change (best_loss l') with (fst (best_loss l', patience_count l')).
    rewrite Pctl. apply ctl_run_fst. }
  assert (patience_count l'
          = Z.of_nat (trailing_stagnant (improving infinity (valid_losses ev))))
    as Hcount.
  { change (patience_count l') with (snd (best_loss l', patience_count l')).
    rewrite Pctl. apply ctl_run_stagnation. }
  assert (forall k, (0 < k < length (valid_losses ev))%nat ->
            Z.of_nat (trailing_stagnant
                        (take k (improving infinity (valid_losses ev))))
            <> patience args) as Hk.
  { intros k Hk. rewrite <- improving_take, <- ctl_run_stagnation.
    apply Pk, Hk. }
  rewrite Hmain.
  destruct (best_model l') as [b|] eqn:Hb.
  - destruct Hrefs as [_ Hin]. destruct (Hin b Hb) as [_ Hlt].
    apply lookup_lt_is_Some in Hlt. destruct Hlt as [sd Hsd].
    rewrite (bind_ok _ _ _ _ _ (finish_bound args l' w1 b sd Hnni Hb Hsd)).
    eexists _, _,
      ([print_device get_device] ++ ev
       ++ [print_saved (os_path_join (target_dir args) "best_model.pt")]), l'.
    split; [reflexivity|].
    rewrite valid_losses_frame, epochs_of_frame, stopped_early_frame
      by reflexivity.
    cbn [log set_log set_disk heap disk].
    split; [rewrite Plog, Hlog0, <- !app_assoc; reflexivity|].
    repeat (split; [assumption|]).
    split; [rewrite Pheap, Hheap0; lia|].
    split.
    + intros _. exists b, sd. rewrite Pdisk, Hdisk0, Hb. auto.
    + intros Hzero. specialize (Pnone Hzero). discriminate.
  - rewrite (bind_raise _ _ _ _ _ (finish_unbound args l' w1 Hnni Hb)).
    exists (raise (UnboundLocalError "best_model")), w1,
      ([print_device get_device] ++ ev ++ []), l'.
    split; [reflexivity|].
    rewrite valid_losses_frame, epochs_of_frame, stopped_early_frame
      by reflexivity.
    split; [rewrite Plog, Hlog0, app_nil_r, <- !app_assoc; reflexivity|].
    repeat (split; [assumption|]).
    split; [rewrite Pheap, Hheap0; lia|].
    split.
    + intros Hnz. destruct (Psome Hnz) as [b Hb']. discriminate.
    + intros _. split; [reflexivity | congruence].
Qed.

End ModelMain.

(** ** model.py: the claims *)

Section ModelClaims.

Import Model.

(** C7. An epoch whose validation loss is strictly below the best known
    one (Improved) sets the stagnation counter to zero and binds
    [best_loss], [best_preds] and [best_model], the latter to a new
    object holding a copy of the model's current parameters: it was not
    on the heap before, no other object changes, and a later in-place
    update of the model leaves the copy as it is.  Any other epoch
    (Stagnant) adds one to the counter and leaves the best loss, the best
    model, the best predictions and the whole world unchanged. *)
Theorem improved_resets_and_snapshots_stagnant_counts
    `{L : Libraries} (valid_loss : float) (preds : list Preds)
    (l : Locals) (w : World) (p : Params) :
  heap w !! model l = Some p ->
  (PrimFloat.ltb valid_loss (best_loss l) = true ->
   exists b l' w',
     early_stopping valid_loss preds l w = (ok l', w')
     /\ patience_count l' = 0
     /\ best_loss l' = valid_loss
     /\ best_preds l' = Some preds
     /\ best_model l' = Some b
     /\ b <> model l
     /\ heap w !! b = None
     /\ heap w' !! b = Some p
     /\ (forall o, o <> b -> heap w' !! o = heap w !! o)
     /\ (forall p2, <[model l := p2]> (heap w') !! b = Some p))
  /\
  (PrimFloat.ltb valid_loss (best_loss l) = false ->
   exists l',
     early_stopping valid_loss preds l w = (ok l', w)
     /\ patience_count l' = patience_count l + 1
     /\ best_loss l' = best_loss l
     /\ best_model l' = best_model l
     /\ best_preds l' = best_preds l).
Proof.
  intros Hp.
  assert (model l < length (heap w))%nat as Hlen
    by (apply lookup_lt_is_Some; eauto).
  split; intros Hlt.
  - exists (length (heap w)). eexists _, _.
    split; [apply (early_stopping_improved valid_loss preds l w p Hp Hlt)|].
    cbn [patience_count best_loss best_preds best_model set_patience_count
         set_best heap set_heap].
    repeat (split; [reflexivity|]).
    split; [lia|].
    split; [apply lookup_ge_None; lia|].
    split; [apply list_lookup_middle; reflexivity|].
    split.
    + intros o Ho. destruct (Nat.lt_ge_cases o (length (heap w))) as [Hlo|Hge].
      * apply lookup_app_l, Hlo.
      * transitivity (@None Params).
        -- apply lookup_ge_None. rewrite length_app. cbn [length]. lia.
        -- symmetry. apply lookup_ge_None. exact Hge.
    + intros p2. rewrite list_lookup_insert_ne by lia.
      apply list_lookup_middle. reflexivity.
  - eexists. split; [apply (early_stopping_stagnant valid_loss preds l w Hlt)|].
    repeat split; reflexivity.
Qed.

Lemma improved_resets_and_snapshots_stagnant_counts_witness :
  (exists b l' w',
     early_stopping (L := replay example_scores) 0.4%float [4%nat]
       (mid_locals example_scores 0.5%float 1) (mid_world example_scores)
     = (ok l', w')
     /\ patience_count l' = 0
     /\ best_loss l' = 0.4%float
     /\ best_preds l' = Some [4%nat]
     /\ best_model l' = Some b
     /\ b <> model (mid_locals example_scores 0.5%float 1)
     /\ heap (mid_world example_scores) !! b = None
     /\ heap w' !! b = Some 3%nat
     /\ (forall o, o <> b ->
                   heap w' !! o = heap (mid_world example_scores) !! o)
     /\ (forall p2,
           <[model (mid_locals example_scores 0.5%float 1) := p2]> (heap w')
           !! b = Some 3%nat))
  /\
  (exists l',
     early_stopping (L := replay example_scores) 0.6%float [4%nat]
       (mid_locals example_scores 0.5%float 1) (mid_world example_scores)
     = (ok l', mid_world example_scores)
     /\ patience_count l' = 1 + 1
     /\ best_loss l' = 0.5%float
     /\ best_model l' = None
     /\ best_preds l' = None).
Proof.
  split.
  - apply (proj1 (improved_resets_and_snapshots_stagnant_counts
                    (L := replay example_scores) 0.4%float [4%nat]
                    (mid_locals example_scores 0.5%float 1)
                    (mid_world example_scores) 3%nat eq_refl)).
    reflexivity.
  - apply (proj2 (improved_resets_and_snapshots_stagnant_counts
                    (L := replay example_scores) 0.6%float [4%nat]
                    (mid_locals example_scores 0.5%float 1)
                    (mid_world example_scores) 3%nat eq_refl)).
    reflexivity.
Defined.













End ModelClaims.

(** ** model.py: further behaviour of [main] *)

Section ModelFurther.

Import Model.

(** X1. With [--inference], [main] prints that inference is not
    implemented and returns at once (model.py:251-253), whatever the
    other flags: no dataset is read, no model is built, nothing is
    written. *)
Theorem inference_returns_at_once `{L : Libraries} (args : Args) (w : World) :
  inference args = true ->
  exists w',
    main args w = (ok None, w')
    /\ log w' = log w ++ [print_not_implemented_inference]
    /\ heap w' = heap w
    /\ disk w' = disk w.
Proof.
  intros Hinf. unfold main, setup, seed_generators.
  destruct (fixed_random_seed args).
  - eexists. unfold bind at 1. unfold bind at 1. cbn beta iota.
    rewrite Hinf. split; [reflexivity|]. cbn. auto.
  - eexists. unfold bind at 1. unfold bind at 1. unfold ret at 1.
    cbn beta iota. rewrite Hinf. split; [reflexivity|]. cbn. auto.
Qed.

Lemma inference_returns_at_once_witness :
  exists w',
    main (L := replay example_scores) (with_mode false true 10)
      (fresh_process example_scores 0 0) = (ok None, w')
    /\ log w' = log (fresh_process example_scores 0 0)
                ++ [print_not_implemented_inference]
    /\ heap w' = heap (fresh_process example_scores 0 0)
    /\ disk w' = disk (fresh_process example_scores 0 0).
Proof.
  apply (inference_returns_at_once (L := replay example_scores)).
  reflexivity.
Defined.

(** X2. Called with [fixed_random_seed] off (and outside inference),
    [main] stops at the first dataset: once the data directory is
    listed, the assertion of model.py:117 fails before anything is
    shuffled, loaded, printed or written. *)
Theorem unseeded_run_fails_at_first_dataset `{L : Libraries}
    (args : Args) (w : World) :
  fixed_random_seed args = false ->
  inference args = false ->
  main args w = (raise (AssertionError ""), w).
Proof.
  intros Hseed Hinf.
  unfold main, setup, seed_generators, EODataset_init.
  rewrite Hseed, Hinf. reflexivity.
Qed.

Lemma unseeded_run_fails_at_first_dataset_witness :
  main (L := replay example_scores) (with_mode false false 10)
    (fresh_process example_scores 0 0)
  = (raise (AssertionError ""), fresh_process example_scores 0 0).
Proof.
  apply (unseeded_run_fails_at_first_dataset (L := replay example_scores));
    reflexivity.
Defined.

Lemma leading_stagnant_le (l : list bool) :
  (leading_stagnant l <= length l)%nat.
Proof.
  induction l as [|[] l IH]; cbn [leading_stagnant length]; lia.
Qed.

Lemma trailing_stagnant_le (l : list bool) :
  (trailing_stagnant l <= length l)%nat.
Proof.
  unfold trailing_stagnant. rewrite <- (length_rev l).
  apply leading_stagnant_le.
Qed.

Lemma trailing_stagnant_snoc (l : list bool) (b : bool) :
  trailing_stagnant (l ++ [b])
  = if b then O else S (trailing_stagnant l).
Proof.
  unfold trailing_stagnant. rewrite rev_app_distr.
  destruct b; reflexivity.
Qed.

Lemma count_improving_false (l : list bool) :
  (forall i, (i < length l)%nat -> l !! i = Some false) ->
  count_improving l = O.
Proof.
  induction l as [|b l IH]; intros H; [reflexivity|].
  pose proof (H O ltac:(cbn; lia)) as H0. cbn in H0.
  injection H0 as ->. cbn [count_improving]. apply IH.
  intros i Hi. apply (H (S i)). cbn. lia.
Qed.





Lemma early_stopping_best_epoch `{L : Libraries} vl preds l w l' w' :
  early_stopping vl preds l w = (ok l', w') -> best_epoch l' = best_epoch l.
Proof.
  unfold early_stopping, copy_deepcopy, bind, state_dict, new_object, ret.
  destruct (PrimFloat.ltb vl (best_loss l));
    [destruct (heap w !! model l)|]; intros H; inversion H; reflexivity.
Qed.

Lemma train_best_epoch `{L : Libraries} args l w tl l' w' :
  train args l w = (ok (tl, l'), w') -> best_epoch l' = best_epoch l.
Proof.
  unfold train, bind, state_dict.
  destruct (heap w !! model l) as [p|]; [|discriminate].
  unfold ok. cbn beta iota.
  destruct (train_sweep args (train_dataset l) p (optimizer l) (torch_rng w))
    as [[[p' o'] r'] tl'].
  intros H; inversion H; reflexivity.
Qed.

Lemma epoch_iteration_best_epoch `{L : Libraries} args epoch l w l' b w' :
  epoch_iteration args epoch l w = (ok (l', b), w') ->
  best_epoch l' = best_epoch l.
Proof.
  unfold epoch_iteration. unfold bind at 1. rewrite emit_ok.
  unfold bind at 1.
  destruct (train args l _) as [[e | [tl l1]] w1] eqn:Htrain; [discriminate|].
  apply train_best_epoch in Htrain.
  unfold bind at 1.
  destruct (validate args l1 w1) as [[e | [vl preds]] w2]; [discriminate|].
  unfold bind at 1. rewrite emit_ok.
  unfold bind at 1.
  match goal with
  | |- context [(if nni args then ?a else ?b) ?x] =>
      destruct ((if nni args then a else b) x) as [[e | []] w3]
  end; [discriminate|].
  unfold bind at 1.
  destruct (early_stopping vl preds l1 w3) as [[e | l2] w4] eqn:Hes;
    [discriminate|].
  apply early_stopping_best_epoch in Hes.
  destruct (patience_count l2 =? patience args).
  - unfold bind, ret. rewrite emit_ok. intros H; inversion H; subst.
    congruence.
  - unfold ret. intros H; inversion H; subst. congruence.
Qed.

Lemma for_epochs_best_epoch `{L : Libraries} args epochs : forall l w l' w',
  for_epochs args epochs l w = (ok l', w') -> best_epoch l' = best_epoch l.
Proof.
  induction epochs as [|epoch rest IH]; intros l w l' w'; cbn [for_epochs].
  - unfold ret. intros H; inversion H; reflexivity.
  - unfold bind at 1.
    destruct (epoch_iteration args epoch l w) as [[e | [l1 b]] w1] eqn:Hit;
      [discriminate|].
    apply epoch_iteration_best_epoch in Hit.
    destruct b.
    + unfold ret. intros H; inversion H; subst. exact Hit.
    + intros H. apply IH in H. congruence.
Qed.

(** X5. [best_epoch] is set to 0 before the loop (model.py:271) and
    assigned nowhere else: whichever epoch gave the best model, a run
    of [main] that comes to its end leaves [best_epoch] at 0. *)
Theorem best_epoch_is_never_updated `{L : Libraries}
    (args : Args) (w w' : World) (l' : Locals) :
  main args w = (ok (Some l'), w') -> best_epoch l' = 0.
Proof.
  unfold main. unfold bind at 1.
  destruct (setup args w) as [[e | [l0|]] w0] eqn:Hsetup;
    [discriminate | | unfold ret; discriminate].
  assert (best_epoch l0 = 0) as H0.
  { revert Hsetup. unfold setup. unfold bind at 1.
    destruct (seed_generators args w) as [[e | []] ws]; [discriminate|].
    destruct (inference args).
    - unfold bind, ret. rewrite emit_ok. discriminate.
    - unfold bind at 1.
      destruct (EODataset_init "train" args ws) as [[e | tr] w1];
        [discriminate|].
      unfold bind at 1.
      destruct (EODataset_init "valid" args w1) as [[e | va] w2];
        [discriminate|].
      unfold bind at 1.
      destruct (dataset_arrays tr w2) as [[e | tra] w3]; [discriminate|].
      unfold bind at 1.
      destruct (dataset_arrays va w3) as [[e | vaa] w4]; [discriminate|].
      unfold bind at 1.
      destruct (EOModel_init args w4) as [[e | m] w5]; [discriminate|].
      unfold bind, ret. rewrite emit_ok.
      intros H; inversion H; reflexivity. }
  unfold bind at 1.
  destruct (for_epochs args (py_range (max_epochs args)) l0 w0)
    as [[e | l1] w1] eqn:Hloop; [discriminate|].
  apply for_epochs_best_epoch in Hloop.
  unfold bind at 1.
  destruct (finish args l1 w1) as [[e | []] w2]; [discriminate|].
  unfold ret. intros H; inversion H; subst. congruence.
Qed.

Lemma best_epoch_is_never_updated_witness :
  exists l' w',
    main (L := replay example_scores) (with_flags 100 2 false)
      (fresh_process example_scores 0 0) = (ok (Some l'), w')
    /\ best_loss l' = 0.4%float
    /\ best_epoch l' = 0.
Proof.
  eexists _, _. split; [vm_compute; reflexivity|].
  split; [reflexivity|].
  eapply (best_epoch_is_never_updated (L := replay example_scores)
            (with_flags 100 2 false) (fresh_process example_scores 0 0)).
  vm_compute. reflexivity.
Defined.

Lemma slice_partition {A} (i : Z) (l : list A) :
  slice_to i l ++ slice_from i l = l.
Proof. unfold slice_to, slice_from. apply take_drop. Qed.

Lemma slice_to_length {A} (i : Z) (l : list A) :
  Z.of_nat (length (slice_to i l))
  = if i <? 0 then Z.max 0 (Z.of_nat (length l) + i)
    else Z.min i (Z.of_nat (length l)).
Proof.
  unfold slice_to, slice_index. rewrite length_take.
  destruct (Z.ltb_spec i 0); lia.
Qed.

(** X6. The two slices of model.py:121-124 split one shuffled listing:
    built from the same state of numpy's generator, the ['train']
    dataset is loaded from the files [f_patches[n:]] and the ['valid']
    one from [f_patches[:n]] of the same shuffled list, the two lists
    put together are that list, each file in exactly one of them, and
    the validation list has [min(n, len)] files ([max(0, len + n)] for
    a negative [n], which counts from the end). *)
Theorem train_and_valid_slices_partition `{L : Libraries}
    (args : Args) (w : World) :
  fixed_random_seed args = true ->
  let shuffled :=
    np_random_shuffle (os_listdir (processed_data_dir args)) (np_rng w) in
  let train_files := slice_from (n_valid_patches args) (fst shuffled) in
  let valid_files := slice_to (n_valid_patches args) (fst shuffled) in
  fst (EODataset_init "train" args w)
  = ok (Some (fst (load_patchlets args train_files (snd shuffled))))
  /\ fst (EODataset_init "valid" args w)
     = ok (Some (fst (load_patchlets args valid_files (snd shuffled))))
  /\ valid_files ++ train_files = fst shuffled
  /\ Z.of_nat (length valid_files)
     = (if n_valid_patches args <? 0
        then Z.max 0 (Z.of_nat (length (fst shuffled)) + n_valid_patches args)
        else Z.min (n_valid_patches args) (Z.of_nat (length (fst shuffled))))
  /\ (length valid_files + length train_files
      = length (fst shuffled))%nat.
Proof.
  intros Hseed shuffled train_files valid_files.
  assert (forall flag, String.eqb flag "test" = false ->
            fst (EODataset_init flag args w)
            = ok (Some (fst (load_patchlets args
                               (if String.eqb flag "train"
                                then train_files else valid_files)
                               (snd shuffled))))) as Hinit.
  { intros flag Hflag. unfold EODataset_init. rewrite Hflag, Hseed.
    unfold bind, py_assert, ret, ok. cbn beta iota.
    subst train_files valid_files shuffled.
    destruct (np_random_shuffle _ _) as [fp r]. cbn beta iota.
    cbn [np_rng set_np_rng fst snd].
    destruct (String.eqb flag "train");
      match goal with
      | |- context [load_patchlets ?a ?f ?g] =>
          destruct (load_patchlets a f g) as [ds r']
      end; reflexivity. }
  split; [exact (Hinit "train" eq_refl)|].
  split; [exact (Hinit "valid" eq_refl)|].
  split; [apply slice_partition|].
  split; [apply slice_to_length|].
  rewrite <- length_app. f_equal. apply slice_partition.
Qed.

Lemma train_and_valid_slices_partition_witness :
  fst (EODataset_init (L := replay example_scores) "train"
         (with_mode true false 1) (fresh_process example_scores 2021 1407))
  = ok (Some ["eopatch-0"])
  /\ fst (EODataset_init (L := replay example_scores) "valid"
            (with_mode true false 1) (fresh_process example_scores 2021 1407))
     = ok (Some ["eopatch-1"]).
Proof.
  pose proof (train_and_valid_slices_partition (L := replay example_scores)
                (with_mode true false 1)
                (fresh_process example_scores 2021 1407) eq_refl) as H.
  cbv zeta in H. destruct H as (Htrain & Hvalid & _).
  split; [exact Htrain | exact Hvalid].
Defined.

(** X7. In [main] the two datasets are not cut from one shuffled
    listing: each [EODataset(...)] of model.py:256-257 lists and
    shuffles the directory itself, the ['valid'] one with numpy's
    generator in the state the ['train'] one left (after its shuffle
    and its sampling of patchlets).  The training files are the tail of
    the first shuffle, the validation files the head of the second. *)
Theorem valid_split_is_cut_from_a_second_shuffle `{L : Libraries}
    (args : Args) (w : World) :
  fixed_random_seed args = true ->
  inference args = false ->
  let files := os_listdir (processed_data_dir args) in
  let first := np_random_shuffle files (np_random_seed 2021) in
  let train_set :=
    load_patchlets args (slice_from (n_valid_patches args) (fst first))
      (snd first) in
  let second := np_random_shuffle files (snd train_set) in
  let valid_set :=
    load_patchlets args (slice_to (n_valid_patches args) (fst second))
      (snd second) in
  exists l0 w0,
    setup args w = (ok (Some l0), w0)
    /\ train_dataset l0 = fst train_set
    /\ valid_dataset l0 = fst valid_set
    /\ np_rng w0 = snd valid_set.
Proof.
  intros Hseed Hinf files first train_set second valid_set.
  unfold setup.
  rewrite (bind_ok _ _ _ _ _ (seed_generators_fixed args w Hseed)), Hinf.
  set (ws := set_torch_rng _ _).
  set (w1 := set_np_rng (snd train_set) ws).
  set (w2 := set_np_rng (snd valid_set) w1).
  assert (EODataset_init "train" args ws = (ok (Some (fst train_set)), w1))
    as Htrain.
  { unfold EODataset_init. rewrite Hseed. cbn [String.eqb Ascii.eqb Bool.eqb].
    unfold bind, py_assert, ret, ok. cbn beta iota.
    subst w2 w1 valid_set second train_set first files ws.
    cbn [np_rng set_np_rng set_torch_rng].
    destruct (np_random_shuffle _ _) as [fp r]. cbn beta iota.
    cbn [np_rng set_np_rng fst snd].
    destruct (load_patchlets _ _ _) as [ds r']. reflexivity. }
  assert (EODataset_init "valid" args w1 = (ok (Some (fst valid_set)), w2))
    as Hvalid.
  { unfold EODataset_init. rewrite Hseed. cbn [String.eqb Ascii.eqb Bool.eqb].
    unfold bind, py_assert, ret, ok. cbn beta iota.
    subst w2 valid_set second. fold files.
    change (np_rng w1) with (snd train_set).
    destruct (np_random_shuffle files (snd train_set)) as [fp r].
    cbn beta iota. cbn [np_rng set_np_rng fst snd].
    match goal with
    | |- context [load_patchlets args (slice_to ?n ?f) ?g] =>
        destruct (load_patchlets args (slice_to n f) g) as [ds r']
    end.
    reflexivity. }
  rewrite (bind_ok _ _ _ _ _ Htrain), (bind_ok _ _ _ _ _ Hvalid).
  unfold dataset_arrays at 1.
  rewrite (bind_ok _ _ w2 w2 (fst train_set)) by reflexivity.
  unfold dataset_arrays at 1.
  rewrite (bind_ok _ _ w2 w2 (fst valid_set)) by reflexivity.
  unfold EOModel_init, bind, new_object, ret, emit, ok.
  destruct (EOModel_parameters args (torch_rng w2)) as [p r].
  eexists _, _. split; [reflexivity|]. cbn. auto.
Qed.

Lemma valid_split_is_cut_from_a_second_shuffle_witness :
  exists l0 w0,
    setup (L := replay example_scores) (with_mode true false 1)
      (fresh_process example_scores 0 0) = (ok (Some l0), w0)
    /\ train_dataset l0 = ["eopatch-0"]
    /\ valid_dataset l0 = ["eopatch-0"]
    /\ np_rng w0 = 2023.
Proof.
  apply (valid_split_is_cut_from_a_second_shuffle
           (L := replay example_scores) (with_mode true false 1)
           (fresh_process example_scores 0 0) eq_refl eq_refl).
Defined.

(** X21. With [--max-epochs 0] (or less) the loop body never runs, so
    [best_model] is never bound: the run (seed fixed, no nni) prints
    the device, then fails at the save of model.py:318 with an
    UnboundLocalError, and writes nothing. *)
Theorem empty_epoch_budget_fails_at_the_save `{L : Libraries}
    (args : Args) (w : World) :
  max_epochs args <= 0 ->
  fixed_random_seed args = true ->
  inference args = false ->
  nni args = false ->
  exists w',
    main args w = (raise (UnboundLocalError "best_model"), w')
    /\ log w' = log w ++ [print_device get_device]
    /\ disk w' = disk w.
Proof.
  intros Hmax Hseed Hinf Hnni.
  destruct (setup_spec args w Hseed Hinf)
    as (l0 & w0 & Hsetup & _ & _ & Hbm & _ & Hlog & Hdisk & _).
  exists w0. split; [|split; assumption].
  unfold main. rewrite (bind_ok _ _ _ _ _ Hsetup).
  assert (py_range (max_epochs args) = []) as ->.
  { unfold py_range. replace (Z.to_nat (max_epochs args)) with O by lia.
    reflexivity. }
  cbn [for_epochs]. rewrite (bind_ok _ _ w0 w0 l0) by reflexivity.
  rewrite (bind_raise _ _ _ _ _ (finish_unbound args l0 w0 Hnni Hbm)).
  reflexivity.
Qed.

Lemma empty_epoch_budget_fails_at_the_save_witness :
  exists w',
    main (L := replay example_scores) (with_flags (-3) 6 false)
      (fresh_process example_scores 0 0)
    = (raise (UnboundLocalError "best_model"), w')
    /\ log w' = log (fresh_process example_scores 0 0)
                ++ [print_device (get_device (L := replay example_scores))]
    /\ disk w' = disk (fresh_process example_scores 0 0).
Proof.
  apply (empty_epoch_budget_fails_at_the_save (L := replay example_scores));
    [cbn; lia | reflexivity ..].
Defined.

End ModelFurther.

(** ** srresnet.py: further behaviour of the blocks and of [forward] *)

Section SRResNetFurther.

Import SRResNet.

Lemma rbind_raise {A B} (e : PyExc) (k : A -> result B) :
  rbind (raise e) k = raise e.
Proof. reflexivity. Qed.

Lemma conv_grown_size self tr cin cout k x :
  dim_c x = cin -> 1 <= dim_w x -> 1 <= dim_h x ->
  size_layer_forward self tr (Conv2d cin cout k 1 (k / 2)) x
  = ok (conv_grown k cout x).
Proof.
  intros Hc Hw Hh. unfold size_layer_forward.
  rewrite Hc, Z.eqb_refl. cbn [negb]. unfold conv_grown.
  destruct (Z.even k) eqn:Heven.
  - pose proof (even_half k Heven) as Hhalf.
    destruct (Z.ltb_spec (dim_w x + 2 * (k / 2)) k); [lia|].
    destruct (Z.ltb_spec (dim_h x + 2 * (k / 2)) k); [lia|].
    cbn [orb]. rewrite !conv2d_out_even by assumption. reflexivity.
  - assert (Z.odd k = true) as Hodd
      by (rewrite <- Z.negb_even, Heven; reflexivity).
    pose proof (odd_half k Hodd) as Hhalf.
    destruct (Z.ltb_spec (dim_w x + 2 * (k / 2)) k); [lia|].
    destruct (Z.ltb_spec (dim_h x + 2 * (k / 2)) k); [lia|].
    cbn [orb]. rewrite !conv2d_out_same by assumption. reflexivity.
Qed.

Lemma ConvolutionalBlock_grown_size self tr cin cout k bn act x :
  Forall (fun l => forall p y, size_layer_forward p tr l y = ok y) act ->
  dim_c x = cin -> 1 <= dim_w x -> 1 <= dim_h x ->
  (bn = true -> tr = true ->
   dim_n (conv_grown k cout x) * dim_w (conv_grown k cout x)
   * dim_h (conv_grown k cout x) <> 1) ->
  ConvolutionalBlock_forward self tr (conv_layers cin cout k bn act) x
  = ok (conv_grown k cout x).
Proof.
  intros Hact Hc Hw Hh Hone.
  unfold ConvolutionalBlock_forward, Sequential_forward, conv_layers.
  cbn [conv_block Sequential_from layer_forward size_torch].
  rewrite conv_grown_size by assumption. rewrite rbind_ok.
  destruct bn; cbn [app Sequential_from].
  - rewrite batch_norm_same_size by (try reflexivity; auto).
    rewrite rbind_ok. apply activations_keep_size, Hact.
  - apply activations_keep_size, Hact.
Qed.

Lemma ConvolutionalBlock_init_layers tr cin cout k bn activation b :
  ConvolutionalBlock_init cin cout k 1 bn activation = ok b ->
  exists act,
    b = conv_layers cin cout k bn act
    /\ Forall (fun l => forall p y, size_layer_forward p tr l y = ok y) act.
Proof.
  unfold ConvolutionalBlock_init, conv_layers.
  destruct activation as [a|]; cbn [option_map].
  - destruct (str_in (lower a) ["prelu"; "leakyrelu"; "tanh"]);
      [|discriminate].
    rewrite py_assert_true, rbind_ok.
    destruct (String.eqb (lower a) "prelu");
      [|destruct (String.eqb (lower a) "leakyrelu");
        [|destruct (String.eqb (lower a) "tanh")]];
      intros H; injection H as <-.
    + exists [PReLU]. split; [destruct bn; reflexivity | repeat constructor].
    + exists [LeakyReLU 0.2%float].
      split; [destruct bn; reflexivity | repeat constructor].
    + exists [Tanh]. split; [destruct bn; reflexivity | repeat constructor].
    + exists []. split; [destruct bn; reflexivity | constructor].
  - rewrite rbind_ok. intros H; injection H as <-.
    exists []. split; [destruct bn; reflexivity | constructor].
Qed.

(** X8. A convolutional block keeps the width and height of its input,
    as its docstring says (srresnet.py:118-119), exactly when the kernel
    size is odd: built with stride 1 and the padding [kernel_size // 2]
    of srresnet.py:97, whatever the activation and with or without
    batch normalisation, it turns [(N, in_channels, w, h)] into
    [(N, out_channels, w, h)] for an odd kernel size and into
    [(N, out_channels, w + 1, h + 1)] for an even one. *)
Theorem conv_block_keeps_size_iff_kernel_odd
    (cin cout k : Z) (bn : bool) (activation : option string)
    (b : ConvolutionalBlock) (self : Path) (tr : bool) (x : Size) :
  ConvolutionalBlock_init cin cout k 1 bn activation = ok b ->
  1 <= k ->
  dim_c x = cin -> 1 <= dim_w x -> 1 <= dim_h x ->
  (bn = true -> tr = true ->
   dim_n (conv_grown k cout x) * dim_w (conv_grown k cout x)
   * dim_h (conv_grown k cout x) <> 1) ->
  ConvolutionalBlock_forward self tr b x
  = ok {| dim_n := dim_n x; dim_c := cout;
          dim_w := if Z.even k then dim_w x + 1 else dim_w x;
          dim_h := if Z.even k then dim_h x + 1 else dim_h x |}.
Proof.
  intros Hinit _ Hc Hw Hh Hone.
  destruct (ConvolutionalBlock_init_layers tr _ _ _ _ _ _ Hinit)
    as (act & -> & Hact).
  apply ConvolutionalBlock_grown_size; assumption.
Qed.

Lemma conv_block_keeps_size_iff_kernel_odd_witness :
  ConvolutionalBlock_forward [Attr "conv_block1"] true
    (conv_layers 3 64 4 true [LeakyReLU 0.2%float])
    {| dim_n := 16; dim_c := 3; dim_w := 24; dim_h := 24 |}
  = ok {| dim_n := 16; dim_c := 64; dim_w := 25; dim_h := 25 |}.
Proof.
  apply (conv_block_keeps_size_iff_kernel_odd 3 64 4 true (Some "LeakyReLU")
           (conv_layers 3 64 4 true [LeakyReLU 0.2%float])
           [Attr "conv_block1"] true
           {| dim_n := 16; dim_c := 3; dim_w := 24; dim_h := 24 |});
    [reflexivity | lia | reflexivity | cbn; lia | cbn; lia
    | intros _ _; cbn; lia].
Defined.

(** X9. A sub-pixel block built for any scaling factor [r >= 1] (and
    an odd kernel size) multiplies width and height by [r] and keeps
    the number of channels, as its docstring says
    (srresnet.py:145-146): the convolution makes [n_channels * r^2]
    channels, which the pixel shuffle turns into [r * r] times as many
    pixels. *)
Theorem subpixel_block_scales_by_its_factor
    (args : Args) (r : Z) (b : SubPixelConvolutionalBlock)
    (self : Path) (tr : bool) (x : Size) :
  SubPixelConvolutionalBlock_init args r = ok b ->
  1 <= r ->
  Z.odd (small_kernel_size args) = true ->
  dim_c x = n_channels args -> 1 <= dim_w x -> 1 <= dim_h x ->
  SubPixelConvolutionalBlock_forward self tr b x
  = ok {| dim_n := dim_n x; dim_c := n_channels args;
          dim_w := dim_w x * r; dim_h := dim_h x * r |}.
Proof.
  intros Hinit Hr Hodd Hc Hw Hh.
  unfold SubPixelConvolutionalBlock_init in Hinit. injection Hinit as <-.
  unfold SubPixelConvolutionalBlock_forward.
  cbn [conv pixel_shuffle prelu layer_forward size_torch].
  rewrite conv_same_size by assumption. rewrite rbind_ok.
  cbn [size_layer_forward with_channels dim_c dim_n dim_w dim_h].
  replace (r ^ 2) with (r * r) by lia.
  rewrite Z.mod_mul by lia. rewrite Z.eqb_refl. cbn [negb].
  rewrite Z.div_mul by lia. rewrite !rbind_ok. reflexivity.
Qed.

Lemma subpixel_block_scales_by_its_factor_witness :
  SubPixelConvolutionalBlock_forward
    [Attr "subpixel_convolutional_blocks"; Idx 0] true
    {| conv := Conv2d 64 (64 * 3 ^ 2) 3 1 (3 / 2);
       pixel_shuffle := PixelShuffle 3;
       prelu := PReLU |}
    {| dim_n := 16; dim_c := 64; dim_w := 24; dim_h := 24 |}
  = ok {| dim_n := 16; dim_c := 64; dim_w := 24 * 3; dim_h := 24 * 3 |}.
Proof.
  apply (subpixel_block_scales_by_its_factor (flags 4 9) 3 _
           [Attr "subpixel_convolutional_blocks"; Idx 0] true
           {| dim_n := 16; dim_c := 64; dim_w := 24; dim_h := 24 |});
    [reflexivity | lia | reflexivity | reflexivity | cbn; lia | cbn; lia].
Defined.

Lemma forward_in_mode_built args tr (x : Size) :
  forward (in_mode tr (built args)) x
  = rbind (ConvolutionalBlock_forward [Attr "conv_block1"] tr
             (conv_block1 (built args)) x)
      (fun residual =>
         rbind (Sequential_forward ResidualBlock_forward
                  [Attr "residual_blocks"] tr (residual_blocks (built args))
                  residual)
           (fun output =>
              rbind (ConvolutionalBlock_forward [Attr "conv_block2"] tr
                       (conv_block2 (built args)) output)
                (fun output =>
                   rbind (tensor_add output residual)
                     (fun output =>
                        rbind (Sequential_forward
                                 SubPixelConvolutionalBlock_forward
                                 [Attr "subpixel_convolutional_blocks"] tr
                                 (subpixel_convolutional_blocks (built args))
                                 output)
                          (fun output =>
                             rbind (ConvolutionalBlock_forward
                                      [Attr "conv_block3"] tr
                                      (conv_block3 (built args)) output)
                               (fun sr_imgs =>
                                  rbind (layer_forward [Attr "sigmoid"] tr
                                           Sigmoid sr_imgs)
                                    (fun sr_imgs => ok sr_imgs))))))).
Proof. destruct tr; reflexivity. Qed.

Lemma SRResNet_init_built args net :
  SRResNet_init args = ok net ->
  int_in (scaling_factor args) [2; 4; 8] = true /\ net = built args.
Proof.
  intros Hinit.
  destruct (int_in (scaling_factor args) [2; 4; 8]) eqn:Hs.
  - split; [reflexivity|].
    rewrite (SRResNet_init_ok args Hs) in Hinit.
    injection Hinit as <-. reflexivity.
  - unfold SRResNet_init in Hinit. rewrite Hs in Hinit. discriminate.
Qed.

(** X10. A batch whose number of channels is not [input_channels] is
    refused by the first convolution: [forward] raises torch's
    RuntimeError, in either mode and whatever the rest of its size. *)
Theorem forward_refuses_other_channel_counts
    (args : Args) (net : SRResNet) (tr : bool) (x : Size) :
  SRResNet_init args = ok net ->
  dim_c x <> input_channels args ->
  forward (in_mode tr net) x
  = raise (RuntimeError "expected input to have in_channels channels").
Proof.
  intros Hinit Hc. apply SRResNet_init_built in Hinit as [_ ->].
  rewrite forward_in_mode_built.
  unfold ConvolutionalBlock_forward at 1. unfold Sequential_forward at 1.
  cbn [built conv_block1 conv_layers conv_block Sequential_from
       layer_forward size_torch].
  unfold size_layer_forward at 1.
  destruct (Z.eqb_spec (dim_c x) (input_channels args)) as [E|_];
    [contradiction|].
  reflexivity.
Qed.

Lemma forward_refuses_other_channel_counts_witness :
  forward (in_mode false (built (flags 4 9)))
    {| dim_n := 16; dim_c := 1; dim_w := 24; dim_h := 24 |}
  = raise (RuntimeError "expected input to have in_channels channels").
Proof.
  apply (forward_refuses_other_channel_counts (flags 4 9));
    [reflexivity | cbn; lia].
Defined.

Lemma size_add_mismatch (a b : Size) :
  dim_n a = dim_n b -> dim_c a = dim_c b ->
  dim_w a <> dim_w b -> dim_w a <> 1 -> dim_w b <> 1 ->
  size_add a b
  = raise (RuntimeError "The size of tensor a must match the size of tensor b").
Proof.
  intros Hn Hc Hw Ha Hb. unfold size_add, broadcast_dim.
  rewrite Hn, Hc, !Z.eqb_refl, !rbind_ok.
  destruct (Z.eqb_spec (dim_w a) (dim_w b)); [contradiction|].
  destruct (Z.eqb_spec (dim_w a) 1); [contradiction|].
  destruct (Z.eqb_spec (dim_w b) 1); [contradiction|].
  reflexivity.
Qed.

Lemma product_not_one (n w h : Z) : 3 <= w -> n * w * h <> 1.
Proof.
  intros Hw H. assert (w * (n * h) = 1) as H' by lia.
  apply Z.mul_eq_1 in H'. lia.
Qed.

Lemma ResidualBlock_even_kernel self tr args x :
  Z.even (small_kernel_size args) = true ->
  dim_c x = n_channels args -> 2 <= dim_w x -> 1 <= dim_h x ->
  ResidualBlock_forward self tr (residual_block args) x
  = raise (RuntimeError "The size of tensor a must match the size of tensor b").
Proof.
  intros Heven Hc Hw Hh. unfold ResidualBlock_forward, residual_block.
  cbn [rb_conv_block1 rb_conv_block2].
  rewrite (ConvolutionalBlock_grown_size _ tr _ _ _ true [PReLU] x
             (prelu_keeps_size tr) Hc); [|lia|lia|].
  2:{ intros _ _. unfold conv_grown. rewrite Heven.
      cbn [dim_n dim_w dim_h]. apply product_not_one. lia. }
  rewrite rbind_ok.
  set (y := conv_grown (small_kernel_size args) (n_channels args) x).
  assert (dim_w y = dim_w x + 1 /\ dim_h y = dim_h x + 1) as [Hyw Hyh]
    by (unfold y, conv_grown; rewrite Heven; split; reflexivity).
  rewrite (ConvolutionalBlock_grown_size _ tr _ _ _ true [] y
             (List.Forall_nil _) eq_refl); [|lia|lia|].
  2:{ intros _ _. unfold conv_grown. rewrite Heven.
      cbn [dim_n dim_w dim_h]. apply product_not_one. lia. }
  rewrite rbind_ok. cbn [tensor_add size_torch].
  assert (dim_w (conv_grown (small_kernel_size args) (n_channels args) y)
          = dim_w x + 2) as Hzw
    by (unfold conv_grown at 1; rewrite Heven; cbn [dim_w]; lia).
  rewrite size_add_mismatch;
    [reflexivity | reflexivity | symmetry; exact Hc | lia ..].
Qed.

(** X11. An even [--small_kernel_size] makes [forward] fail: each
    convolution in between adds one row and one column, so the sum
    with the residual (of the first residual block, srresnet.py:183, or
    of srresnet.py:247 when there is no residual block) meets two
    different sizes, and torch raises a RuntimeError.  This holds in
    either mode for every batch at least two pixels wide (one pixel
    wide, the residual would be broadcast). *)
Theorem even_small_kernel_fails_at_the_residual_sum
    (args : Args) (net : SRResNet) (tr : bool) (x : Size) :
  SRResNet_init args = ok net ->
  Z.even (small_kernel_size args) = true ->
  1 <= small_kernel_size args -> 1 <= large_kernel_size args ->
  dim_c x = input_channels args -> 2 <= dim_w x -> 1 <= dim_h x ->
  forward (in_mode tr net) x
  = raise (RuntimeError "The size of tensor a must match the size of tensor b").
Proof.
  intros Hinit Heven _ _ Hc Hw Hh.
  apply SRResNet_init_built in Hinit as [_ ->].
  rewrite forward_in_mode_built.
  cbn [built conv_block1 residual_blocks conv_block2].
  rewrite (ConvolutionalBlock_grown_size _ tr _ _ _ false [PReLU] x
             (prelu_keeps_size tr) Hc); [|lia|lia|discriminate].
  rewrite rbind_ok.
  set (y := conv_grown (large_kernel_size args) (n_channels args) x).
  assert (dim_c y = n_channels args) as Hyc by reflexivity.
  assert (2 <= dim_w y /\ 1 <= dim_h y) as [Hyw Hyh].
  { unfold y, conv_grown. cbn [dim_w dim_h].
    destruct (Z.even (large_kernel_size args)); lia. }
  unfold Sequential_forward at 1.
  destruct (Z.to_nat (n_blocks args)) as [|n].
  - cbn [repeat Sequential_from]. rewrite rbind_ok.
    rewrite (ConvolutionalBlock_grown_size _ tr _ _ _ true [] y
               (List.Forall_nil _) Hyc); [|lia|lia|].
    2:{ intros _ _. unfold conv_grown at 1 2 3. rewrite Heven.
        cbn [dim_n dim_w dim_h]. apply product_not_one. lia. }
    rewrite rbind_ok. cbn [tensor_add size_torch].
    assert (dim_w (conv_grown (small_kernel_size args) (n_channels args) y)
            = dim_w y + 1) as Hzw
      by (unfold conv_grown at 1; rewrite Heven; reflexivity).
    rewrite size_add_mismatch;
      [reflexivity | reflexivity | reflexivity | lia ..].
  - cbn [repeat Sequential_from].
    rewrite ResidualBlock_even_kernel by assumption. reflexivity.
Qed.

Lemma even_small_kernel_fails_at_the_residual_sum_witness :
  forward (in_mode true (built (flags_small 4 16)))
    {| dim_n := 16; dim_c := 3; dim_w := 24; dim_h := 24 |}
  = raise (RuntimeError "The size of tensor a must match the size of tensor b").
Proof.
  apply (even_small_kernel_fails_at_the_residual_sum (flags_small 4 16));
    [reflexivity | reflexivity | cbn; lia ..].
Defined.

Lemma ConvolutionalBlock_single_value self cin cout k act x :
  dim_c x = cin -> Z.odd k = true ->
  dim_n x = 1 -> dim_w x = 1 -> dim_h x = 1 ->
  ConvolutionalBlock_forward self true (conv_layers cin cout k true act) x
  = raise (ValueError "Expected more than 1 value per channel when training").
Proof.
  intros Hc Hodd Hn Hw Hh.
  unfold ConvolutionalBlock_forward, Sequential_forward, conv_layers.
  cbn [conv_block Sequential_from layer_forward size_torch app].
  rewrite conv_same_size by (try assumption; lia). rewrite rbind_ok.
  unfold size_layer_forward at 1.
  cbn [with_channels dim_n dim_c dim_w dim_h].
  rewrite Z.eqb_refl, Hn, Hw, Hh. reflexivity.
Qed.

(** X12. A batch of one single pixel is refused in training mode and
    accepted after [eval()] (odd kernel sizes): the network as
    constructed stops at the first batch normalisation, which wants more
    than one value per channel when training, with a ValueError; the
    same network in evaluation mode returns the [(1, 1, s, s)] image. *)
Theorem single_pixel_batch_fails_in_training_only
    (args : Args) (net : SRResNet) :
  SRResNet_init args = ok net ->
  Z.odd (large_kernel_size args) = true ->
  Z.odd (small_kernel_size args) = true ->
  1 <= large_kernel_size args -> 1 <= small_kernel_size args ->
  forward net (batch args 1 1 1)
  = raise (ValueError "Expected more than 1 value per channel when training")
  /\ forward (eval_ net) (batch args 1 1 1)
     = ok {| dim_n := 1; dim_c := 1;
             dim_w := scaling_factor args; dim_h := scaling_factor args |}.
Proof.
  intros Hinit Hlarge Hsmall _ _.
  apply SRResNet_init_built in Hinit as [Hs ->]. split.
  - change (built args) with (in_mode true (built args)).
    rewrite forward_in_mode_built.
    cbn [built conv_block1 residual_blocks conv_block2].
    rewrite (ConvolutionalBlock_grown_size _ true _ _ _ false [PReLU]
               (batch args 1 1 1) (prelu_keeps_size true) eq_refl);
      [|cbn; lia|cbn; lia|discriminate].
    rewrite rbind_ok.
    set (y := conv_grown (large_kernel_size args) (n_channels args)
                (batch args 1 1 1)).
    assert (dim_n y = 1 /\ dim_w y = 1 /\ dim_h y = 1) as (Hn & Hw & Hh).
    { unfold y, conv_grown. rewrite <- Z.negb_odd, Hlarge. cbn. auto. }
    unfold Sequential_forward at 1.
    destruct (Z.to_nat (n_blocks args)) as [|n].
    + cbn [repeat Sequential_from]. rewrite rbind_ok.
      rewrite ConvolutionalBlock_single_value by (assumption || reflexivity).
      reflexivity.
    + cbn [repeat Sequential_from].
      unfold ResidualBlock_forward at 1.
      cbn [residual_block rb_conv_block1].
      rewrite ConvolutionalBlock_single_value by (assumption || reflexivity).
      reflexivity.
  - change (eval_ (built args)) with (in_mode false (built args)).
    rewrite (forward_built_size args false (batch args 1 1 1) Hs Hlarge Hsmall
               eq_refl).
    + cbn [batch dim_n dim_w dim_h]. rewrite Z.mul_1_l. reflexivity.
    + unfold accepted. cbn [batch dim_n dim_w dim_h].
      split; [lia|]. split; [lia|]. discriminate.
Qed.

Lemma single_pixel_batch_fails_in_training_only_witness :
  forward (built (flags 4 9)) (batch (flags 4 9) 1 1 1)
  = raise (ValueError "Expected more than 1 value per channel when training")
  /\ forward (eval_ (built (flags 4 9))) (batch (flags 4 9) 1 1 1)
     = ok {| dim_n := 1; dim_c := 1; dim_w := 4; dim_h := 4 |}.
Proof.
  apply (single_pixel_batch_fails_in_training_only (flags 4 9));
    [reflexivity | reflexivity | reflexivity | cbn; lia ..].
Defined.

End SRResNetFurther.

(** ** model.py: shapes through EOModel *)

Section EOModelShapes.

Lemma EOModel_forward_head (args : Model.Args) (b d : Z) (rest : list Z)
    (module_args : option Model.Args) :
  EOModel.numel (d :: rest) = Model.s2_length args * Model.s2_length args ->
  EOModel.forward module_args (EOModel.init args) (b :: d :: rest)
  = obind (match module_args with
           | Some a => inr a
           | None => inl (Builtin (NameError "args"))
           end)
      (fun a =>
         EOModel.torch_reshape
           [b; EOModel.SCALE * EOModel.SCALE * Model.s2_length args
               * Model.s2_length args]
           [-1; EOModel.SCALE * Model.s2_length a;
            EOModel.SCALE * Model.s2_length a]).
Proof.
  intros Hsize. unfold EOModel.forward, EOModel.torch_flatten_1.
  rewrite Hsize. cbn [obind].
  unfold EOModel.Linear_forward at 1.
  cbn [rev app EOModel.init EOModel.lr1 EOModel.in_features
       EOModel.out_features].
  rewrite Z.eqb_refl. cbn [obind]. unfold EOModel.F_relu.
  unfold EOModel.Linear_forward at 1.
  cbn [rev app EOModel.init EOModel.lr2 EOModel.in_features
       EOModel.out_features].
  reflexivity.
Qed.

(** X13. Run inside the script, where the global [args] is the
    namespace the model was built from, [EOModel.forward] turns a batch
    of [B] inputs with [s2_length * s2_length] values each (whatever
    their axes) into [B] images of side [SCALE * s2_length]: shape
    [(B, 4 * s2_length, 4 * s2_length)]. *)
Theorem EOModel_forward_gives_upscaled_images
    (args : Model.Args) (b d : Z) (rest : list Z) :
  1 <= Model.s2_length args ->
  0 <= b ->
  EOModel.numel (d :: rest) = Model.s2_length args * Model.s2_length args ->
  EOModel.forward (Some args) (EOModel.init args) (b :: d :: rest)
  = inr [b; 4 * Model.s2_length args; 4 * Model.s2_length args].
Proof.
  intros Hs Hb Hsize. rewrite EOModel_forward_head by exact Hsize.
  cbn [obind]. unfold EOModel.torch_reshape, EOModel.SCALE.
  set (s := Model.s2_length args) in *.
  cbn [EOModel.infer_size_scan Z.eqb Pos.eqb].
  destruct (Z.eqb_spec (4 * s) (-1)) as [E|_]; [lia|].
  destruct (Z.leb_spec 0 (4 * s)) as [_|E]; [|lia].
  cbn [obind EOModel.numel fold_right map Z.eqb Pos.eqb].
  assert (b * (4 * 4 * s * s * 1) = b * (1 * (4 * s) * (4 * s))) as Hn by lia.
  rewrite Hn.
  assert (0 < 1 * (4 * s) * (4 * s)) as Hpos by nia.
  rewrite Z.mod_mul by lia. rewrite Z.div_mul by lia.
  destruct (Z.ltb_spec 0 (1 * (4 * s) * (4 * s))) as [_|E]; [|lia].
  rewrite Z.eqb_refl, orb_true_r.
  destruct (Z.eqb_spec (1 * (4 * s) * (4 * s)) 0) as [E|_]; [lia|].
  destruct (Z.eqb_spec (4 * s) (-1)) as [E|_]; [lia|].
  reflexivity.
Qed.

Lemma EOModel_forward_gives_upscaled_images_witness :
  EOModel.forward (Some Model.default_args)
    (EOModel.init Model.default_args) [64; 32; 32; 1]
  = inr [64; 4 * 32; 4 * 32].
Proof.
  apply (EOModel_forward_gives_upscaled_images Model.default_args 64 32
           [32; 1]); [cbn; lia | lia | reflexivity].
Defined.

(** X14. [EOModel.forward] works only inside the script: where the
    global [args] of model.py:342 is not bound (model.py imported as a
    module), no call of [forward] returns a tensor, and a batch the two
    linear layers accept ends in [NameError: name 'args' is not
    defined] at the reshape. *)
Theorem EOModel_forward_needs_the_script_global
    (args : Model.Args) (b d : Z) (rest : list Z) :
  EOModel.numel (d :: rest) = Model.s2_length args * Model.s2_length args ->
  EOModel.forward None (EOModel.init args) (b :: d :: rest)
  = inl (Builtin (NameError "args"))
  /\ forall self x y, EOModel.forward None self x <> inr y.
Proof.
  intros Hsize. split.
  - rewrite EOModel_forward_head by exact Hsize. reflexivity.
  - intros self x y. unfold EOModel.forward.
    destruct (EOModel.torch_flatten_1 x) as [e|x1]; [discriminate|].
    cbn [obind].
    destruct (EOModel.Linear_forward (EOModel.lr1 self) x1) as [e|x2];
      [discriminate|].
    cbn [obind].
    destruct (EOModel.Linear_forward (EOModel.lr2 self) (EOModel.F_relu x2))
      as [e|x3]; discriminate.
Qed.

Lemma EOModel_forward_needs_the_script_global_witness :
  EOModel.forward None (EOModel.init Model.default_args) [64; 32; 32; 1]
  = inl (Builtin (NameError "args"))
  /\ forall self x y, EOModel.forward None self x <> inr y.
Proof.
  apply (EOModel_forward_needs_the_script_global Model.default_args 64 32
           [32; 1]); reflexivity.
Defined.

(** X15. A batch whose inputs do not have [s2_length * s2_length]
    values each is refused by the first linear layer with torch's
    RuntimeError, whether the global [args] is bound or not. *)
Theorem EOModel_forward_refuses_other_input_sizes
    (module_args : option Model.Args) (args : Model.Args) (b d : Z)
    (rest : list Z) :
  EOModel.numel (d :: rest) <> Model.s2_length args * Model.s2_length args ->
  EOModel.forward module_args (EOModel.init args) (b :: d :: rest)
  = inl (Builtin (RuntimeError "mat1 and mat2 shapes cannot be multiplied")).
Proof.
  intros Hsize. unfold EOModel.forward, EOModel.torch_flatten_1.
  cbn [obind]. unfold EOModel.Linear_forward at 1.
  cbn [rev app EOModel.init EOModel.lr1 EOModel.in_features].
  destruct (Z.eqb_spec (EOModel.numel (d :: rest))
              (Model.s2_length args * Model.s2_length args)) as [E|_];
    [contradiction|].
  reflexivity.
Qed.

Lemma EOModel_forward_refuses_other_input_sizes_witness :
  EOModel.forward (Some Model.default_args)
    (EOModel.init Model.default_args) [64; 16; 16; 1]
  = inl (Builtin (RuntimeError "mat1 and mat2 shapes cannot be multiplied")).
Proof.
  apply (EOModel_forward_refuses_other_input_sizes
           (Some Model.default_args) Model.default_args 64 16 [16; 1]).
  cbn. lia.
Defined.

End EOModelShapes.

(** ** srresnet.py: add_nni_params *)

Section AddNniParamsProps.

Import AddNniParams.

Lemma same_parameters_refl (args : Namespace) : same_parameters args args.
Proof. split; [tauto | eauto]. Qed.

Lemma same_parameters_insert (args d : Namespace) (key : string) (v : Value) :
  same_parameters args d ->
  is_Some (args !! key) ->
  (forall z, args !! key = Some (VInt z) -> exists z', v = VInt z') ->
  same_parameters args (<[key := v]> d).
Proof.
  intros [Hkeys Hint] Hkey Hv. split.
  - intros k. rewrite lookup_insert_is_Some'. rewrite Hkeys.
    split; [intros [<- | H]; assumption | auto].
  - intros k z Hk. destruct (decide (key = k)) as [<- | Hne].
    + rewrite lookup_insert_eq. destruct (Hv z Hk) as [z' ->]. eauto.
    + rewrite lookup_insert_ne by exact Hne. eauto.
Qed.

Lemma cast_item_spec ios (args : Namespace) (item c : string * Value) :
  cast_item ios args item = inr c ->
  fst c = fst item
  /\ is_Some (args !! fst item)
  /\ (forall z, args !! fst item = Some (VInt z) -> exists z', snd c = VInt z').
Proof.
  destruct item as [key value]. unfold cast_item. cbn [fst].
  destruct (args !! key) as [v|] eqn:Hv; [|discriminate].
  destruct v;
    try (intros H; injection H as <-; cbn [fst snd];
         split; [reflexivity|]; split; [eauto|]; intros z Hz; discriminate).
  destruct (py_int ios value) as [e|z']; cbn [obind]; [discriminate|].
  intros H; injection H as <-. cbn [fst snd]. eauto.
Qed.

Lemma dict_comprehension_spec ios (args : Namespace) items : forall casted,
  dict_comprehension (cast_item ios args) items = inr casted ->
  map fst casted = map fst items
  /\ Forall (fun c =>
               is_Some (args !! fst c)
               /\ (forall z, args !! fst c = Some (VInt z) ->
                             exists z', snd c = VInt z')) casted.
Proof.
  induction items as [|item rest IH]; intros casted; cbn [dict_comprehension].
  - intros H; injection H as <-. split; [reflexivity | constructor].
  - destruct (cast_item ios args item) as [e|c] eqn:Hc; cbn [obind];
      [discriminate|].
    destruct (dict_comprehension (cast_item ios args) rest) as [e|cs];
      cbn [obind]; [discriminate|].
    intros H; injection H as <-.
    destruct (IH cs eq_refl) as [Hkeys Hall].
    destruct (cast_item_spec _ _ _ _ Hc) as (Hk & Hin & Hint).
    split; [cbn [map]; rewrite Hk, Hkeys; reflexivity|].
    constructor; [rewrite Hk; auto | exact Hall].
Qed.

Lemma dict_update_same (args : Namespace) casted : forall d,
  Forall (fun c =>
            is_Some (args !! fst c)
            /\ (forall z, args !! fst c = Some (VInt z) ->
                          exists z', snd c = VInt z')) casted ->
  same_parameters args d ->
  same_parameters args (dict_update d casted).
Proof.
  induction casted as [|c rest IH]; intros d Hall Hd; [exact Hd|].
  inversion Hall as [|? ? [Hin Hint] Hrest]; subst.
  unfold dict_update. cbn [fold_left]. apply IH; [exact Hrest|].
  apply same_parameters_insert; assumption.
Qed.

Lemma adjust_paths_same (args : Namespace) dir params : forall d,
  same_parameters args d ->
  same_parameters args (snd (adjust_paths dir params d)).
Proof.
  induction params as [|param rest IH]; intros d Hd; [exact Hd|].
  cbn [adjust_paths].
  destruct (d !! param) as [v|] eqn:Hv; [|exact Hd].
  destruct v; try exact Hd.
  apply IH. apply same_parameters_insert; [exact Hd | |].
  - apply Hd. eauto.
  - intros z Hz. destruct Hd as [_ Hint].
    destruct (Hint _ _ Hz) as [z' Hz']. congruence.
Qed.

(** X16. [add_nni_params] never adds or removes a parameter, and a
    parameter that is an [int] stays one (the values nni offers for it
    go through [int(...)]): this holds of the namespace the function
    leaves in every case, also when it raises half-way. *)
Theorem add_nni_params_keeps_names_and_int_types
    (nni_parameters : option (list (string * Value)))
    (environ : option string) (int_of_str : string -> option Z)
    (args : Namespace) :
  same_parameters args
    (snd (add_nni_params nni_parameters environ int_of_str args)).
Proof.
  unfold add_nni_params.
  destruct nni_parameters as [args_nni|]; [|apply same_parameters_refl].
  destruct (forallb _ args_nni); cbn [negb]; [|apply same_parameters_refl].
  destruct (dict_comprehension (cast_item int_of_str args) args_nni)
    as [e|casted] eqn:Hc; [apply same_parameters_refl|].
  apply adjust_paths_same, dict_update_same;
    [apply (dict_comprehension_spec _ _ _ _ Hc) | apply same_parameters_refl].
Qed.

(** X17. A parameter that the namespace does not have is refused: when
    nni offers a key that is not in [args], the function raises the
    AssertionError 'need only valid parameters' and leaves the
    namespace as it was, none of the other offered values taken. *)
Theorem add_nni_params_refuses_unknown_keys
    (args_nni : list (string * Value)) (environ : option string)
    (int_of_str : string -> option Z) (args : Namespace)
    (key : string) (value : Value) :
  In (key, value) args_nni ->
  args !! key = None ->
  add_nni_params (Some args_nni) environ int_of_str args
  = (inl (Builtin (AssertionError "need only valid parameters")), args).
Proof.
  intros Hin Hnone. unfold add_nni_params.
  destruct (forallb _ args_nni) eqn:Hall; [|reflexivity].
  rewrite forallb_forall in Hall. specialize (Hall _ Hin).
  cbn [fst] in Hall. apply bool_decide_eq_true in Hall.
  rewrite Hnone in Hall. destruct Hall as [v Hv]. discriminate.
Qed.

Lemma add_nni_params_refuses_unknown_keys_witness :
  add_nni_params
    (Some [("batch_size", VFloat 32.9%float); ("lr", VFloat 0.01%float)])
    (Some "/nni/out") no_literal default_namespace
  = (inl (Builtin (AssertionError "need only valid parameters")),
     default_namespace).
Proof.
  apply (add_nni_params_refuses_unknown_keys _ _ _ _ "lr" (VFloat 0.01%float));
    [right; left; reflexivity | vm_compute; reflexivity].
Defined.

Lemma dict_update_other (key : string) other : forall d : Namespace,
  ~ In key (map fst other) -> dict_update d other !! key = d !! key.
Proof.
  induction other as [|[k v] rest IH]; intros d Hnot; [reflexivity|].
  unfold dict_update. cbn [fold_left fst snd].
  cbn [map fst In] in Hnot.
  change (dict_update (<[k := v]> d) rest !! key = d !! key).
  rewrite IH by tauto. apply lookup_insert_ne. tauto.
Qed.

Lemma adjust_paths_other (key dir : string) params : forall d : Namespace,
  ~ In key params -> snd (adjust_paths dir params d) !! key = d !! key.
Proof.
  induction params as [|param rest IH]; intros d Hnot; [reflexivity|].
  cbn [adjust_paths]. cbn [In] in Hnot.
  destruct (d !! param) as [v|]; [|reflexivity].
  destruct v; try reflexivity.
  rewrite IH by tauto. apply lookup_insert_ne. tauto.
Qed.

(** X18. Only the offered parameters and the two paths can change: a
    parameter that nni does not offer, other than [save_model_path]
    and [output_path], has after the call the value it had before,
    whether the call returns or raises. *)
Theorem add_nni_params_leaves_the_other_parameters
    (nni_parameters : option (list (string * Value)))
    (environ : option string) (int_of_str : string -> option Z)
    (args : Namespace) (key : string) :
  (forall args_nni, nni_parameters = Some args_nni ->
                    ~ In key (map fst args_nni)) ->
  key <> "save_model_path" -> key <> "output_path" ->
  snd (add_nni_params nni_parameters environ int_of_str args) !! key
  = args !! key.
Proof.
  intros Hoffer Hsave Hout. unfold add_nni_params.
  destruct nni_parameters as [args_nni|]; [|reflexivity].
  specialize (Hoffer args_nni eq_refl).
  destruct (forallb _ args_nni); cbn [negb]; [|reflexivity].
  destruct (dict_comprehension (cast_item int_of_str args) args_nni)
    as [e|casted] eqn:Hc; [reflexivity|].
  destruct (dict_comprehension_spec _ _ _ _ Hc) as [Hkeys _].
  rewrite adjust_paths_other by (cbn [In]; intuition congruence).
  apply dict_update_other. rewrite Hkeys. exact Hoffer.
Qed.

Lemma add_nni_params_leaves_the_other_parameters_witness :
  snd (add_nni_params
         (Some [("batch_size", VFloat 32.9%float);
                ("learning_rate", VFloat 0.01%float)])
         (Some "/nni/out") no_literal default_namespace) !! "n_blocks"
  = default_namespace !! "n_blocks".
Proof.
  apply (add_nni_params_leaves_the_other_parameters
           (Some [("batch_size", VFloat 32.9%float);
                  ("learning_rate", VFloat 0.01%float)])
           (Some "/nni/out") no_literal default_namespace "n_blocks").
  - intros args_nni H. injection H as <-. cbn [map fst In].
    intros [H | [H | []]]; discriminate.
  - discriminate.
  - discriminate.
Defined.

Lemma after_last_slash_none (p s : string) :
  after_last_slash p = Some s -> after_last_slash s = None.
Proof.
  induction p as [|c rest IH]; cbn [after_last_slash]; [discriminate|].
  destruct (after_last_slash rest) as [s'|] eqn:Hrest.
  - intros H; injection H as <-. apply IH. reflexivity.
  - destruct (Ascii.eqb c "/"); [|discriminate].
    intros H; injection H as <-. exact Hrest.
Qed.

Lemma os_path_basename_no_slash (p : string) :
  after_last_slash (os_path_basename p) = None.
Proof.
  unfold os_path_basename.
  destruct (after_last_slash p) as [s|] eqn:Hp; [|exact Hp].
  apply (after_last_slash_none p s Hp).
Qed.

Lemma after_last_slash_app (a t s : string) :
  after_last_slash t = Some s -> after_last_slash (a ++ t) = Some s.
Proof.
  intros Ht. induction a as [|c rest IH]; [exact Ht|].
  change (String c rest ++ t)%string with (String c (rest ++ t)%string).
  cbn [after_last_slash]. rewrite IH. reflexivity.
Qed.

Lemma ends_with_slash (a : string) :
  String.eqb (substring (String.length a - 1) 1 a) "/" = true ->
  exists a', a = (a' ++ "/")%string.
Proof.
  induction a as [|c rest IH]; [discriminate|].
  cbn [String.length]. rewrite Nat.sub_1_r. cbn [Nat.pred].
  destruct rest as [|c' rest'].
  - cbn [String.length substring]. intros H. apply String.eqb_eq in H.
    exists "". exact H.
  - cbn [String.length substring]. intros H.
    destruct IH as [a' Ha'].
    { cbn [String.length]. rewrite Nat.sub_1_r. cbn [Nat.pred]. exact H. }
    exists (String c a').
    change (String c a' ++ "/")%string with (String c (a' ++ "/")%string).
    rewrite <- Ha'. reflexivity.
Qed.

Lemma string_append_assoc (a b c : string) :
  ((a ++ b) ++ c = a ++ (b ++ c))%string.
Proof.
  induction a as [|x r IH]; [reflexivity|].
  change (String x r ++ b)%string with (String x (r ++ b)%string).
  change (String x (r ++ b) ++ c)%string
    with (String x ((r ++ b) ++ c)%string).
  change (String x r ++ (b ++ c))%string
    with (String x (r ++ (b ++ c))%string).
  f_equal. exact IH.
Qed.

Lemma basename_of_join (dir b : string) :
  after_last_slash b = None ->
  os_path_basename (Model.os_path_join dir b) = b.
Proof.
  intros Hb. unfold Model.os_path_join.
  assert (after_last_slash ("/" ++ b) = Some b) as Hslash
    by (change ("/" ++ b)%string with (String "/" b);
        cbn [after_last_slash]; rewrite Hb; reflexivity).
  destruct (String.eqb dir "").
  - unfold os_path_basename. rewrite Hb. reflexivity.
  - destruct (String.eqb (substring (String.length dir - 1) 1 dir) "/")
      eqn:Hend.
    + destruct (ends_with_slash dir Hend) as [a' ->].
      unfold os_path_basename.
      rewrite string_append_assoc.
      rewrite (after_last_slash_app a' _ b Hslash). reflexivity.
    + unfold os_path_basename.
      rewrite (after_last_slash_app dir _ b Hslash). reflexivity.
Qed.

(** X19. When the call returns, the two paths point into the nni
    output directory and keep their file names: [save_model_path] and
    [output_path] are [os.path.join(nni_output_dir,
    os.path.basename(old))], whose basename is that of the old path,
    the old path being the one of the namespace when nni offers none.
    (The other parameters nni offers are those of X16 and X18.) *)
Theorem add_nni_params_moves_the_paths_and_keeps_file_names
    (args_nni : list (string * Value)) (environ : option string)
    (int_of_str : string -> option Z) (args args' : Namespace)
    (param : string) :
  add_nni_params (Some args_nni) environ int_of_str args = (inr tt, args') ->
  param = "save_model_path" \/ param = "output_path" ->
  exists old,
    args' !! param
    = Some (VStr (Model.os_path_join (expandvars_NNI_OUTPUT_DIR environ)
                    (os_path_basename old)))
    /\ os_path_basename
         (Model.os_path_join (expandvars_NNI_OUTPUT_DIR environ)
            (os_path_basename old))
       = os_path_basename old
    /\ (~ In param (map fst args_nni) -> args !! param = Some (VStr old)).
Proof.
  intros Hrun Hparam. unfold add_nni_params in Hrun.
  destruct (forallb _ args_nni); cbn [negb] in Hrun; [|discriminate].
  destruct (dict_comprehension (cast_item int_of_str args) args_nni)
    as [e|casted] eqn:Hc; [discriminate|].
  destruct (dict_comprehension_spec _ _ _ _ Hc) as [Hkeys _].
  set (d := dict_update args casted) in *.
  set (dir := expandvars_NNI_OUTPUT_DIR environ) in *.
  cbn [adjust_paths] in Hrun.
  destruct (d !! "save_model_path") as [v1|] eqn:H1; [|discriminate].
  destruct v1 as [| | | |p1|]; try discriminate.
  rewrite lookup_insert_ne in Hrun by discriminate.
  destruct (d !! "output_path") as [v2|] eqn:H2; [|discriminate].
  destruct v2 as [| | | |p2|]; try discriminate.
  injection Hrun as <-.
  destruct Hparam as [-> | ->].
  - exists p1. split.
    + rewrite lookup_insert_ne by discriminate. apply lookup_insert_eq.
    + split; [apply basename_of_join, os_path_basename_no_slash|].
      intros Hnot. rewrite <- H1. symmetry. apply dict_update_other.
      rewrite Hkeys. exact Hnot.
  - exists p2. split.
    + apply lookup_insert_eq.
    + split; [apply basename_of_join, os_path_basename_no_slash|].
      intros Hnot. rewrite <- H2. symmetry. apply dict_update_other.
      rewrite Hkeys. exact Hnot.
Qed.

Lemma add_nni_params_moves_the_paths_and_keeps_file_names_witness :
  exists old,
    snd (add_nni_params
           (Some [("batch_size", VFloat 32.9%float);
                  ("learning_rate", VFloat 0.01%float)])
           (Some "/nni/out") no_literal default_namespace) !! "output_path"
    = Some (VStr (Model.os_path_join "/nni/out" (os_path_basename old)))
    /\ os_path_basename
         (Model.os_path_join "/nni/out" (os_path_basename old))
       = os_path_basename old
    /\ (~ In "output_path" ["batch_size"; "learning_rate"] ->
        default_namespace !! "output_path" = Some (VStr old)).
Proof.
  apply (add_nni_params_moves_the_paths_and_keeps_file_names
           [("batch_size", VFloat 32.9%float);
            ("learning_rate", VFloat 0.01%float)]
           (Some "/nni/out") no_literal default_namespace _ "output_path");
    [vm_compute; reflexivity | right; reflexivity].
Defined.

Lemma adjust_paths_raises (dir : string) params : forall (d d' : Namespace) e,
  adjust_paths dir params d = (inl e, d') ->
  (exists key, e = KeyError key) \/ (exists msg, e = TypeError msg).
Proof.
  induction params as [|param rest IH]; intros d d' e; cbn [adjust_paths];
    [discriminate|].
  destruct (d !! param) as [v|];
    [|intros H; injection H as <- _; left; eauto].
  destruct v; try (intros H; injection H as <- _; right; eauto).
  apply IH.
Qed.

(** X20. The offered values are taken all together or not at all: when
    the call raises a NameError (no nni), an AssertionError (unknown
    key), a ValueError or an OverflowError (a value that [int(...)]
    refuses), the namespace is left as it was.  Only the loop over the
    two paths, which raises KeyError or TypeError, can leave a
    namespace that is already updated. *)
Theorem add_nni_params_fails_before_any_update
    (nni_parameters : option (list (string * Value)))
    (environ : option string) (int_of_str : string -> option Z)
    (args args' : Namespace) (e : Exc) :
  add_nni_params nni_parameters environ int_of_str args = (inl e, args') ->
  (forall key, e <> KeyError key) ->
  (forall msg, e <> TypeError msg) ->
  args' = args.
Proof.
  intros Hrun Hkey Htype. revert Hrun.
  unfold add_nni_params.
  destruct nni_parameters as [args_nni|];
    [|intros H; injection H as _ <-; reflexivity].
  destruct (forallb _ args_nni); cbn [negb];
    [|intros H; injection H as _ <-; reflexivity].
  destruct (dict_comprehension (cast_item int_of_str args) args_nni)
    as [e'|casted]; [intros H; injection H as _ <-; reflexivity|].
  intros H. apply adjust_paths_raises in H.
  destruct H as [[key H] | [msg H]];
    [destruct (Hkey key H) | destruct (Htype msg H)].
Qed.

Lemma add_nni_params_fails_before_any_update_witness :
  snd (add_nni_params
         (Some [("learning_rate", VFloat 0.01%float);
                ("batch_size", VFloat nan)])
         (Some "/nni/out") no_literal default_namespace)
  = default_namespace.
Proof.
  apply (add_nni_params_fails_before_any_update
           (Some [("learning_rate", VFloat 0.01%float);
                  ("batch_size", VFloat nan)])
           (Some "/nni/out") no_literal default_namespace _
           (Builtin (ValueError "cannot convert float NaN to integer")));
    [vm_compute; reflexivity | discriminate | discriminate].
Defined.

Lemma dict_comprehension_items ios (args : Namespace) items : forall casted,
  dict_comprehension (cast_item ios args) items = inr casted ->
  forall item, In item items ->
    exists c, cast_item ios args item = inr c /\ In c casted.
Proof.
  induction items as [|item0 rest IH]; intros casted; cbn [dict_comprehension].
  - intros _ item [].
  - destruct (cast_item ios args item0) as [e|c0] eqn:Hc; cbn [obind];
      [discriminate|].
    destruct (dict_comprehension (cast_item ios args) rest) as [e|cs];
      cbn [obind]; [discriminate|].
    intros H; injection H as <-. intros item [<- | Hin].
    + exists c0. split; [exact Hc | left; reflexivity].
    + destruct (IH cs eq_refl item Hin) as (c & Hcast & Hc').
      exists c. split; [exact Hcast | right; exact Hc'].
Qed.

Lemma dict_update_lookup (key : string) (v : Value) other :
  forall d : Namespace,
  List.NoDup (map fst other) -> In (key, v) other ->
  dict_update d other !! key = Some v.
Proof.
  induction other as [|[k1 v1] rest IH]; intros d Hnodup Hin; [destruct Hin|].
  cbn [map fst] in Hnodup. inversion Hnodup as [|? ? Hnot Hrest]; subst.
  change (dict_update (<[k1 := v1]> d) rest !! key = Some v).
  destruct Hin as [Heq | Hin].
  - injection Heq as -> ->.
    rewrite dict_update_other by exact Hnot. apply lookup_insert_eq.
  - apply IH; assumption.
Qed.

(** X22. When the call returns, every value nni offered (for a
    parameter other than the two paths) is in the namespace: as it was
    offered when the parameter was not an [int], and as the [int(...)]
    of what was offered when it was one.  The keys offered are
    distinct, being those of a dict. *)
Theorem add_nni_params_takes_the_offered_values
    (args_nni : list (string * Value)) (environ : option string)
    (int_of_str : string -> option Z) (args args' : Namespace)
    (key : string) (value : Value) :
  add_nni_params (Some args_nni) environ int_of_str args = (inr tt, args') ->
  List.NoDup (map fst args_nni) ->
  In (key, value) args_nni ->
  key <> "save_model_path" -> key <> "output_path" ->
  match args !! key with
  | Some (VInt _) =>
      exists z, py_int int_of_str value = inr z
                /\ args' !! key = Some (VInt z)
  | _ => args' !! key = Some value
  end.
Proof.
  intros Hrun Hnodup Hin Hsave Hout. unfold add_nni_params in Hrun.
  destruct (forallb _ args_nni); cbn [negb] in Hrun; [|discriminate].
  destruct (dict_comprehension (cast_item int_of_str args) args_nni)
    as [e|casted] eqn:Hc; [discriminate|].
  destruct (dict_comprehension_spec _ _ _ _ Hc) as [Hkeys _].
  destruct (dict_comprehension_items _ _ _ _ Hc _ Hin) as (c & Hcast & Hc').
  assert (args' !! key = dict_update args casted !! key) as ->.
  { replace args'
      with (snd (adjust_paths (expandvars_NNI_OUTPUT_DIR environ)
                   ["save_model_path"; "output_path"]
                   (dict_update args casted)))
      by (rewrite Hrun; reflexivity).
    apply adjust_paths_other. cbn [In]. intuition congruence. }
  rewrite <- Hkeys in Hnodup.
  unfold cast_item in Hcast.
  destruct (args !! key) as [v0|]; [|discriminate].
  destruct v0;
    try (injection Hcast as <-;
         apply (dict_update_lookup key value casted args Hnodup Hc')).
  destruct (py_int int_of_str value) as [e|z']; cbn [obind] in Hcast;
    [discriminate|].
  injection Hcast as <-. exists z'. split; [reflexivity|].
  apply (dict_update_lookup key (VInt z') casted args Hnodup Hc').
Qed.

Lemma add_nni_params_takes_the_offered_values_witness :
  exists z,
    py_int no_literal (VFloat 32.9%float) = inr z
    /\ snd (add_nni_params
              (Some [("batch_size", VFloat 32.9%float);
                     ("learning_rate", VFloat 0.01%float)])
              (Some "/nni/out") no_literal default_namespace) !! "batch_size"
       = Some (VInt z).
Proof.
  apply (add_nni_params_takes_the_offered_values
           [("batch_size", VFloat 32.9%float);
            ("learning_rate", VFloat 0.01%float)]
           (Some "/nni/out") no_literal default_namespace _
           "batch_size" (VFloat 32.9%float)).
  - vm_compute. reflexivity.
  - cbn [map fst]. repeat constructor; cbn [In]; intuition discriminate.
  - left. reflexivity.
  - discriminate.
  - discriminate.
Defined.

End AddNniParamsProps.
